(** * Heart-disease risk form: slider normalisation, form navigation and
      the live-update cycle

    A shallow embedding of the two browser scripts of the repository,
    [static/js/resScript.js] (slider limits and the "Update Prediction"
    cycle) and [static/js/script.js] (tabbed form navigation and field
    validation), together with the properties their specification states.

    Conventions of the embedding.
    - Strings are sequences of bytes; the scripts only look at ASCII
      characters, and text outside ASCII stays as its UTF-8 bytes (case
      folding is that of ASCII).
    - A JavaScript number is [NaN], an infinity or an exact decimal
      [m * 10^e]; the slider code only parses, compares, clamps and prints
      numbers, so no rounding to binary64 is modelled there, and zero
      carries no sign (JavaScript prints both zeros as the same text).  The
      one product the scripts compute, the percentage of the result, is
      taken in binary64.
    - A DOM element is a record of the properties the scripts read and
      write; a property holds the string (or flag) last assigned to it.
      Elements that several others can reach (an error line shared by the
      fields of one wrapper, a value label) live in a store and are referred
      to by index. *)

From Stdlib Require Import ZArith QArith Qpower Qround Qabs Ascii String List Lia.
From stdpp Require Import base option list strings gmap.

Local Open Scope string_scope.
Local Open Scope Z_scope.

(* ===================================================================== *)
(** * The host language: numbers, [parseFloat], [String(number)]          *)
(* ===================================================================== *)

Module JS.

(** ** Numbers *)

Inductive num : Type :=
  | NaN
  | Inf (neg : bool)
  | Fin (m e : Z).          (* the decimal m * 10^e *)

Definition to_Q (m e : Z) : Q := (inject_Z m * (10 # 1) ^ e)%Q.

Definition isNaN (x : num) : bool :=
  match x with NaN => true | _ => false end.

(** The relational comparison of two numbers; [None] when a [NaN] is
    involved, in which case every one of [<], [>], [<=], [>=] is false. *)
Definition compare (x y : num) : option comparison :=
  match x, y with
  | NaN, _ | _, NaN => None
  | Inf true, Inf true => Some Eq
  | Inf false, Inf false => Some Eq
  | Inf true, _ => Some Lt
  | _, Inf true => Some Gt
  | Inf false, _ => Some Gt
  | _, Inf false => Some Lt
  | Fin m e, Fin m' e' => Some (to_Q m e ?= to_Q m' e')%Q
  end.

Definition ltb (x y : num) : bool :=
  match compare x y with Some Lt => true | _ => false end.
Definition gtb (x y : num) : bool := ltb y x.
Definition leb (x y : num) : bool :=
  match compare x y with Some Lt | Some Eq => true | _ => false end.
Definition eqb (x y : num) : bool :=
  match compare x y with Some Eq => true | _ => false end.

(** [Math.max] and [Math.min]: [NaN] if an argument is. *)
Definition Math_max (a b : num) : num :=
  if isNaN a || isNaN b then NaN else if ltb a b then b else a.
Definition Math_min (a b : num) : num :=
  if isNaN a || isNaN b then NaN else if ltb b a then b else a.

Definition of_Z (z : Z) : num := Fin z 0.

(** Two numbers are the same number. *)
Definition same (x y : num) : Prop :=
  match x, y with
  | NaN, NaN => True
  | Inf a, Inf b => a = b
  | Fin m e, Fin m' e' => (to_Q m e == to_Q m' e')%Q
  | _, _ => False
  end.

(** ** Characters *)

Definition code (c : ascii) : N := N_of_ascii c.

Definition is_digit (c : ascii) : bool :=
  ((48 <=? code c) && (code c <=? 57))%N.
Definition is_lower (c : ascii) : bool :=
  ((97 <=? code c) && (code c <=? 122))%N.
Definition is_upper (c : ascii) : bool :=
  ((65 <=? code c) && (code c <=? 90))%N.

(** White space as [\s] and [parseFloat] see it (the ASCII part): TAB, LF,
    VT, FF, CR and SPACE. *)
Definition is_space (c : ascii) : bool :=
  ((9 <=? code c) && (code c <=? 13) || (code c =? 32))%N.

Definition digit_val (c : ascii) : Z := Z.of_N (code c) - 48.
Definition digit_char (d : Z) : ascii := ascii_of_N (Z.to_N (d + 48)).

(** ** Decimal digit sequences *)

Definition digits_val (l : list ascii) : Z :=
  fold_left (fun a c => 10 * a + digit_val c) l 0.

Fixpoint digits_fuel (fuel : nat) (n : Z) (acc : list ascii) : list ascii :=
  match fuel with
  | O => acc
  | S f => if n <=? 0 then acc
           else digits_fuel f (n / 10) (digit_char (n mod 10) :: acc)
  end.

(** The decimal digits of a natural number, most significant first. *)
Definition digits (n : Z) : list ascii :=
  if n <=? 0 then ["0"%char]
  else digits_fuel (S (Z.to_nat (Z.log2 n))) n [].

(** Longest prefix of digits, and what follows it. *)
Fixpoint span_digits (s : string) : list ascii * string :=
  match s with
  | String c r =>
      if is_digit c then let (d, t) := span_digits r in (c :: d, t)
      else ([], s)
  | EmptyString => ([], s)
  end.

Fixpoint drop_space (s : string) : string :=
  match s with
  | String c r => if is_space c then drop_space r else s
  | EmptyString => s
  end.

(** An optional sign: is it a minus, and the rest. *)
Definition take_sign (s : string) : bool * string :=
  match s with
  | String "-" r => (true, r)
  | String "+" r => (false, r)
  | _ => (false, s)
  end.

(** ** [parseFloat]

    Leading white space is skipped, then the longest prefix that is a
    decimal literal is read: an optional sign, then [Infinity], or digits
    with an optional fraction and an optional exponent.  No such prefix
    gives [NaN]. *)
Definition exponent_part (s : string) : Z :=
  match s with
  | String c r =>
      if (c =? "e")%char || (c =? "E")%char then
        let (neg, r') := take_sign r in
        let (ed, _) := span_digits r' in
        match ed with
        | [] => 0
        | _ => if neg then - digits_val ed else digits_val ed
        end
      else 0
  | EmptyString => 0
  end.

(** A decimal literal at the head of [s]: its digits read as an integer,
    and the power of ten that scales them. *)
Definition decimal_literal (s : string) : option (Z * Z) :=
  let (ip, r1) := span_digits s in
  let (fp, r2) :=
    match r1 with
    | String "." r => span_digits r
    | _ => ([], r1)
    end in
  match (ip ++ fp)%list with
  | [] => None
  | ds => Some (digits_val ds, exponent_part r2 - Z.of_nat (length fp))
  end.

Definition parseFloat (s : string) : num :=
  let (neg, s1) := take_sign (drop_space s) in
  if String.prefix "Infinity" s1 then Inf neg else
  match decimal_literal s1 with
  | Some (m, e) => Fin (if neg then - m else m) e
  | None => NaN
  end.

(** ** [String(x)] for a number [x]

    With [s] the digits of [x] without trailing zeros, [k] their count and
    [n] the position of the decimal point: plain digits when
    [k <= n <= 21], a decimal point inside when [0 < n <= 21], a leading
    [0.] when [-6 < n <= 0], exponent notation otherwise. *)
Fixpoint drop_zeros (l : list ascii) : list ascii :=
  match l with
  | c :: r => if (c =? "0")%char then drop_zeros r else l
  | [] => []
  end.

Definition strip_trailing_zeros (l : list ascii) : list ascii :=
  rev (drop_zeros (rev l)).

Definition str (l : list ascii) : string := string_of_list_ascii l.

Definition zeros (n : Z) : list ascii := repeat "0"%char (Z.to_nat n).

(** The text of [a * 10^e] for a positive integer [a]. *)
Definition unsigned_to_string (a e : Z) : string :=
  let all := digits a in
  let ds := strip_trailing_zeros all in
  let k := Z.of_nat (length ds) in
  let n := Z.of_nat (length all) + e in
  if (k <=? n) && (n <=? 21) then str (ds ++ zeros (n - k))%list
  else if (0 <? n) && (n <=? 21) then
    str (take (Z.to_nat n) ds) +:+ "." +:+ str (drop (Z.to_nat n) ds)
  else if (-6 <? n) && (n <=? 0) then
    "0." +:+ str (zeros (- n) ++ ds)%list
  else
    let ex := n - 1 in
    let tail := (if ex <? 0 then "e-" else "e+") +:+ str (digits (Z.abs ex)) in
    match ds with
    | [d] => str [d] +:+ tail
    | d :: rest => str [d] +:+ "." +:+ str rest +:+ tail
    | [] => tail
    end.

Definition finite_to_string (m e : Z) : string :=
  if m =? 0 then "0"
  else if m <? 0 then "-" +:+ unsigned_to_string (Z.abs m) e
  else unsigned_to_string (Z.abs m) e.

Definition to_string (x : num) : string :=
  match x with
  | NaN => "NaN"
  | Inf neg => if neg then "-Infinity" else "Infinity"
  | Fin m e => finite_to_string m e
  end.

(** ** Binary64

    A double is [NaN], an infinity, or the rational it stands for; the
    sign of zero is not kept ([toFixed] and [String] print both zeros
    alike). *)

Inductive double : Type :=
  | DNaN
  | DInf (neg : bool)
  | DFin (q : Q).

(** [floor (log2 x)] for a positive rational. *)
Definition ilog2 (x : Q) : Z :=
  let k := Z.log2 (Qnum x) - Z.log2 (Zpos (Qden x)) in
  if Qle_bool ((2 # 1) ^ k) x then k else k - 1.

(** The double nearest to a positive rational, ties to the even
    significand, before overflow is looked at. *)
Definition nearest (x : Q) : Q :=
  let e := Z.max (ilog2 x - 52) (-1074) in
  let t := Qred (x / (2 # 1) ^ e) in
  let n0 := Qfloor t in
  let n := match (t - inject_Z n0 ?= 1 # 2)%Q with
           | Lt => n0
           | Gt => n0 + 1
           | Eq => if Z.even n0 then n0 else n0 + 1
           end in
  Qred (inject_Z n * (2 # 1) ^ e).

(** Rounding a magnitude to binary64, with the sign it carries. *)
Definition rounded (neg : bool) (x : Q) : double :=
  if Qeq_bool x 0 then DFin 0
  else let y := nearest x in
       if Qle_bool ((2 # 1) ^ 1024) y then DInf neg
       else DFin (if neg then Qred (- y) else y).

(** The Number value of a decimal literal: the double nearest to it. *)
Definition to_double (x : num) : double :=
  match x with
  | NaN => DNaN
  | Inf neg => DInf neg
  | Fin m e => rounded (m <? 0) (Qabs (to_Q m e))
  end.

(** The product of two doubles. *)
Definition mul (a b : double) : double :=
  match a, b with
  | DNaN, _ | _, DNaN => DNaN
  | DFin x, DFin y =>
      rounded (match (x * y ?= 0)%Q with Lt => true | _ => false end) (Qabs (x * y))
  | DInf s, DFin y | DFin y, DInf s =>
      match (y ?= 0)%Q with
      | Eq => DNaN
      | Lt => DInf (negb s)
      | Gt => DInf s
      end
  | DInf s, DInf s' => DInf (xorb s s')
  end.

(** [String(x)] for a double from [10^21] on, which is an integer [N]:
    the shortest decimal [s * 10^p] that reads back as [N], and among
    several of the same length the one closest to [N]. *)
Definition reads_as (N c : Z) : bool :=
  Qeq_bool (nearest (inject_Z c)) (inject_Z N).

(** The decimal of [k] digits, if one reads back as [N]. *)

Definition candidate (N : Z) (k : nat) : option (Z * Z) :=
  let p := Z.of_nat (length (digits N)) - Z.of_nat k in
  let lo := N / 10 ^ p in
  let hi := lo + 1 in
  match reads_as N (lo * 10 ^ p), reads_as N (hi * 10 ^ p) with
  | true, true =>
      match N - lo * 10 ^ p ?= hi * 10 ^ p - N with
      | Lt => Some (lo, p)
      | Gt => Some (hi, p)
      | Eq => Some (if Z.even lo then lo else hi, p)
      end
  | true, false => Some (lo, p)
  | false, true => Some (hi, p)
  | false, false => None
  end.

Fixpoint shortest_from (N : Z) (k : nat) (fuel : nat) : Z * Z :=
  match fuel with
  | O => (N, 0)
  | S f => match candidate N k with
           | Some sp => sp
           | None => shortest_from N (S k) f
           end
  end.

Definition shortest (N : Z) : Z * Z := shortest_from N 1 17.

(** [x.toFixed(1)]: the sign, then for a magnitude below [10^21] the
    nearest number of tenths, the larger one of two that are equally near,
    and from [10^21] on the text [String] gives. *)
Definition toFixed1 (x : double) : string :=
  match x with
  | DNaN => "NaN"
  | DInf neg => if neg then "-Infinity" else "Infinity"
  | DFin q =>
      let a := Qabs q in
      (match (q ?= 0)%Q with Lt => "-" | _ => "" end) +:+
      (if Qle_bool (inject_Z (10 ^ 21)) a
       then let (s, p) := shortest (Qfloor a) in unsigned_to_string s p
       else let n := Qfloor (a * inject_Z 10 + (1 # 2)) in
            str (digits (n / 10)) +:+ "." +:+ str (digits (n mod 10)))
  end.

(** A text at which a run of digits stops: it is empty or starts with a
    character that is not a digit. *)
Definition stops (r : string) : Prop :=
  match r with String c _ => is_digit c = false | EmptyString => True end.

End JS.

(* ===================================================================== *)
(** * Slider normalisation ([static/js/resScript.js])                     *)
(* ===================================================================== *)

Module Slider.
Import JS.

(** ** The limits table and the synonym map *)

(** A property read off a limits object: a number, or [None] for
    [undefined] (the property does not exist). *)
Record limits : Type := mkLimits {
  lim_min : option num;
  lim_max : option num;
  lim_step : option num
}.

Definition entry (lo hi : Z) (st : num) : limits :=
  mkLimits (Some (of_Z lo)) (Some (of_Z hi)) (Some st).

Definition one : num := Fin 1 0.
Definition tenth : num := Fin 1 (-1).

Definition LIMITS : list (string * limits) :=
  [ ("age", entry 18 100 one);
    ("bmi", entry 10 60 tenth);
    ("heartrate", entry 40 200 one);
    ("sysbp", entry 80 250 one);
    ("diabp", entry 50 150 one);
    ("restingbps", entry 80 200 one);
    ("maxheartrate", entry 60 220 one);
    ("cholesterol", entry 100 400 one);
    ("totchol", entry 100 400 one);
    ("oldpeak", entry 0 6 tenth);
    ("stslope", entry 0 2 one);
    ("fastingbloodsugar", entry 0 1 one);
    ("sex", entry 0 1 one);
    ("chestpaintype", entry 0 3 one);
    ("exerciseangina", entry 0 1 one);
    ("currentsmoker", entry 0 1 one);
    ("cigsperday", entry 0 60 one);
    ("bpmeds", entry 0 1 one);
    ("prevalentstroke", entry 0 1 one);
    ("prevalenthyp", entry 0 1 one);
    ("diabetes", entry 0 1 one);
    ("restecg", entry 0 2 one) ].

Definition SYN : list (string * string) :=
  [ ("cholesterolmgdl", "cholesterol");
    ("restingbpmmhg", "restingbps");
    ("maxheartratebpm", "maxheartrate");
    ("oldpeakstdepression", "oldpeak");
    ("stslope", "stslope");
    ("fastingbloodsugar", "fastingbloodsugar");
    ("exerciseinducedangina", "exerciseangina");
    ("trestbps", "restingbps");
    ("thalach", "maxheartrate");
    ("fbs", "fastingbloodsugar");
    ("cp", "chestpaintype");
    ("exang", "exerciseangina");
    ("restingbps", "restingbps");
    ("restingbpsystolic", "restingbps");
    ("resting-bp-s", "restingbps");
    ("max-heart-rate", "maxheartrate") ].

(** An object's own property. *)
Fixpoint own {A : Type} (tbl : list (string * A)) (k : string) : option A :=
  match tbl with
  | (k', v) :: r => if String.eqb k' k then Some v else own r k
  | [] => None
  end.

(** The names every object literal inherits from [Object.prototype]; each
    holds a function or an object, which has none of [min], [max],
    [step]. *)
Definition inherited_names : list string :=
  [ "constructor"; "hasOwnProperty"; "isPrototypeOf"; "propertyIsEnumerable";
    "toLocaleString"; "toString"; "valueOf"; "__proto__";
    "__defineGetter__"; "__defineSetter__";
    "__lookupGetter__"; "__lookupSetter__" ].

Definition inherited (k : string) : bool :=
  existsb (String.eqb k) inherited_names.

(** [LIMITS[k]]: the entry, an inherited member (an object with no limits
    in it), or [undefined]. *)
Definition LIMITS_get (k : string) : option limits :=
  match own LIMITS k with
  | Some l => Some l
  | None => if inherited k then Some (mkLimits None None None) else None
  end.

(** ** [normalizeKey] *)

Definition lower (c : ascii) : ascii :=
  if is_upper c then ascii_of_N (code c + 32) else c.

Fixpoint toLowerCase (s : string) : string :=
  match s with
  | String c r => String (lower c) (toLowerCase r)
  | EmptyString => EmptyString
  end.

(** [s.replace(/[...]/g, "")]: delete every character of the class. *)
Fixpoint delete_all (cls : ascii -> bool) (s : string) : string :=
  match s with
  | String c r => if cls c then delete_all cls r else String c (delete_all cls r)
  | EmptyString => EmptyString
  end.

Definition is_separator (c : ascii) : bool :=
  existsb (Ascii.eqb c) ["("; ")"; "/"; "-"; "."; "_"]%char.

Definition not_alnum (c : ascii) : bool := negb (is_lower c || is_digit c).

Definition normalizeKey (s : string) : string :=
  if String.eqb s "" then ""
  else delete_all not_alnum
         (delete_all is_separator
            (delete_all is_space (toLowerCase s))).

(** ** [canonicalKey] *)

(** [SYN[k]] is reached only when [LIMITS[k]] is undefined, hence never
    for an inherited name; its own properties are non-empty strings. *)
Definition canonicalKey (raw : string) : string :=
  let k := normalizeKey raw in
  match LIMITS_get k with
  | Some _ => k
  | None =>
      match own SYN k with
      | Some c => c
      | None => k
      end
  end.

(** ** [clamp] *)

(** What [clamp] may be handed as its first argument. *)
Inductive value : Type :=
  | VNum (x : num)
  | VStr (s : string).

(** [undefined] as a number is [NaN]. *)
Definition ToNumber (o : option num) : num :=
  match o with Some x => x | None => NaN end.

(** [clamp(v, lo, hi)]; the result is [lo] itself for a [NaN], a number
    otherwise. *)
Definition clamp (v : value) (lo hi : option num) : option num :=
  let x := match v with VNum x => x | VStr s => parseFloat s end in
  if isNaN x then lo
  else Some (Math_min (ToNumber hi) (Math_max (ToNumber lo) x)).

(** ** Slider elements and [applyLimitsFromMap] *)

Record input : Type := mkInput {
  dataset_feat : option string;   (* [data-feat], if the attribute is there *)
  input_id : string;
  input_name : string;
  input_min : string;
  input_max : string;
  input_step : string;
  input_value : string;
  value_span : option nat         (* the readout of the slider, if any *)
}.

Definition set_min (s : string) (i : input) : input :=
  mkInput (dataset_feat i) (input_id i) (input_name i) s (input_max i)
          (input_step i) (input_value i) (value_span i).
Definition set_max (s : string) (i : input) : input :=
  mkInput (dataset_feat i) (input_id i) (input_name i) (input_min i) s
          (input_step i) (input_value i) (value_span i).
Definition set_step (s : string) (i : input) : input :=
  mkInput (dataset_feat i) (input_id i) (input_name i) (input_min i)
          (input_max i) s (input_value i) (value_span i).
Definition set_value (s : string) (i : input) : input :=
  mkInput (dataset_feat i) (input_id i) (input_name i) (input_min i)
          (input_max i) (input_step i) s (value_span i).

(** A value written to a string property of an element. *)
Definition DOMString (o : option num) : string :=
  match o with Some x => to_string x | None => "undefined" end.

Definition truthy_string (s : string) : bool := negb (String.eqb s "").

(** [a || b] on strings, [undefined] read as the empty string. *)
Definition or_else (a b : string) : string := if truthy_string a then a else b.

(** [input.dataset.feat || input.id || input.name || ""] *)
Definition featRaw (i : input) : string :=
  or_else (default "" (dataset_feat i)) (or_else (input_id i) (or_else (input_name i) "")).

(** [lim.step || 1]: zero, [NaN] and [undefined] are falsy. *)
Definition step_or_one (o : option num) : num :=
  match o with
  | Some x => if isNaN x || eqb x (of_Z 0) then one else x
  | None => one
  end.

Definition min_guard (curMin : num) (lim : limits) : bool :=
  isNaN curMin || ltb curMin (of_Z (-50)) || gtb curMin (ToNumber (lim_min lim)).
Definition max_guard (curMax : num) (lim : limits) : bool :=
  isNaN curMax || gtb curMax (of_Z 500) || ltb curMax (ToNumber (lim_max lim)).
Definition step_guard (st : string) : bool :=
  negb (truthy_string st) || String.eqb st "any" || leb (parseFloat st) (of_Z 0).

Definition applyLimitsFromMap (i : input) : input :=
  let key := canonicalKey (featRaw i) in
  match LIMITS_get key with
  | None => i
  | Some lim =>
      let curMin := parseFloat (input_min i) in
      let curMax := parseFloat (input_max i) in
      let i1 := if min_guard curMin lim then set_min (DOMString (lim_min lim)) i else i in
      let i2 := if max_guard curMax lim then set_max (DOMString (lim_max lim)) i1 else i1 in
      let i3 := if step_guard (input_step i2)
                then set_step (to_string (step_or_one (lim_step lim))) i2 else i2 in
      set_value
        (DOMString (clamp (VNum (parseFloat (input_value i3))) (lim_min lim) (lim_max lim)))
        i3
  end.

(** The control's feature key resolves to an entry of the limits table. *)
Definition resolves (i : input) (lo hi st : num) : Prop :=
  own LIMITS (canonicalKey (featRaw i)) = Some (mkLimits (Some lo) (Some hi) (Some st)).

(** ** Sample sliders *)

(** An age slider declared tighter than the table, one declared looser,
    and one whose step is not a number. *)
Definition tighter_age : input := mkInput (Some "age") "" "" "30" "90" "1" "40" None.
Definition looser_age : input := mkInput (Some "age") "" "" "0" "200" "1" "40" None.
Definition odd_step_age : input := mkInput (Some "age") "" "" "18" "100" "abc" "40" None.

(** ** Notions used to state further properties *)

(** A lower-case letter or a digit: what [normalizeKey] keeps. *)
Definition is_alnum (c : ascii) : bool := is_lower c || is_digit c.

(** Every character of the string is a lower-case letter or a digit. *)
Fixpoint alnum_only (s : string) : bool :=
  match s with
  | String c r => is_alnum c && alnum_only r
  | EmptyString => true
  end.

(** The number [clamp] works on: its argument if that is a number, what
    [parseFloat] reads from it otherwise. *)
Definition as_number (v : value) : num :=
  match v with VNum x => x | VStr s => parseFloat s end.

End Slider.

(* ===================================================================== *)
(** * Form navigation and validation ([static/js/script.js])              *)
(* ===================================================================== *)

Module Navigator.

(** ** The page *)

(** The browser's verdict on a control, as [el.validity] exposes it. *)
Record ValidityState : Type := mkValidity {
  valid : bool;
  valueMissing : bool;
  rangeUnderflow : bool;
  rangeOverflow : bool;
  badInput : bool
}.

(** A [<small>] line next to a control. *)
Record small : Type := mkSmall {
  innerText : string;
  originalText : option string;     (* [dataset.originalText] *)
  error_message : bool              (* class [error-message] *)
}.

Inductive kind : Type := InputNumber | InputOther | Select.

(** An [<input>] or [<select>]. *)
Record field : Type := mkField {
  field_kind : kind;
  field_disabled : bool;
  field_required : bool;
  field_value : string;
  field_min : string;
  field_max : string;
  validity : ValidityState;
  invalid : bool;                   (* class [invalid] *)
  field_small : option nat;         (* [el.parentElement.querySelector("small")] *)
  field_panel : option nat          (* [el.closest(".tab-panel")] *)
}.

Record panel : Type := mkPanel {
  panel_id : string;
  panel_active : bool;              (* class [active] *)
  aria_hidden : option string;
  panel_fields : list nat           (* the controls inside, in document order *)
}.

Record tab : Type := mkTab {
  tab_target : option string;       (* [dataset.target] *)
  tab_active : bool;
  aria_selected : option string
}.

(** The document: the [.tab-panel] and [.tab] elements in document order,
    the store of controls and of [<small>] lines, the elements that carry
    an [id] (in document order, each with its first control inside, if
    any), the controls of the form, the two controls of the smoker rule,
    and the control that has the focus. *)
Record page : Type := mkPage {
  panels : list panel;
  tabs : list tab;
  fields : list field;
  smalls : list small;
  ids : list (string * option nat);
  form_fields : list nat;
  smokerStatusEl : option nat;
  cigsPerDayEl : option nat;
  focused : option nat
}.

Definition with_panels_tabs (ps : list panel) (ts : list tab) (st : page) : page :=
  mkPage ps ts (fields st) (smalls st) (ids st) (form_fields st)
         (smokerStatusEl st) (cigsPerDayEl st) (focused st).
Definition with_fields (fs : list field) (st : page) : page :=
  mkPage (panels st) (tabs st) fs (smalls st) (ids st) (form_fields st)
         (smokerStatusEl st) (cigsPerDayEl st) (focused st).
Definition with_smalls (ss : list small) (st : page) : page :=
  mkPage (panels st) (tabs st) (fields st) ss (ids st) (form_fields st)
         (smokerStatusEl st) (cigsPerDayEl st) (focused st).
Definition with_focused (f : option nat) (st : page) : page :=
  mkPage (panels st) (tabs st) (fields st) (smalls st) (ids st) (form_fields st)
         (smokerStatusEl st) (cigsPerDayEl st) f.

Definition set_invalid (b : bool) (f : field) : field :=
  mkField (field_kind f) (field_disabled f) (field_required f) (field_value f)
          (field_min f) (field_max f) (validity f) b (field_small f) (field_panel f).

Definition string_of_bool (b : bool) : string := if b then "true" else "false".

Definition truthy (s : option string) : bool :=
  match s with Some t => negb (String.eqb t "") | None => false end.

(** ** [showPanelById] *)

(** [document.getElementById(id)] followed by
    [.querySelector("input, select")]: [None] when no element carries the
    id, [Some None] when the element holds no control. *)
Fixpoint getElementById (l : list (string * option nat)) (id : string)
  : option (option nat) :=
  match l with
  | (i, c) :: r => if String.eqb i id then Some c else getElementById r id
  | [] => None
  end.

(** [el.focus()]; a disabled control does not take the focus. *)
Definition focus (i : nat) (st : page) : page :=
  match fields st !! i with
  | Some f => if field_disabled f then st else with_focused (Some i) st
  | None => st
  end.

Definition show_panel (targetId : option string) (p : panel) : panel :=
  let isActive := bool_decide (Some (panel_id p) = targetId) in
  mkPanel (panel_id p) isActive (Some (string_of_bool (negb isActive))) (panel_fields p).

Definition show_tab (targetId : option string) (t : tab) : tab :=
  let isActive := bool_decide (tab_target t = targetId) in
  mkTab (tab_target t) isActive (Some (string_of_bool isActive)).

(** The argument is [None] for [undefined] (a missing [data-target]),
    which [getElementById] reads as the text "undefined". *)
Definition showPanelById (targetId : option string) (st : page) : page :=
  let st1 := with_panels_tabs (map (show_panel targetId) (panels st))
                              (map (show_tab targetId) (tabs st)) st in
  let id := default "undefined" targetId in
  if String.eqb id "" then st1 else
  match getElementById (ids st1) id with
  | Some (Some firstInput) => focus firstInput st1
  | _ => st1
  end.

(** ** [showError], [clearError], [validateInput] *)

Definition showError (el : nat) (message : string) (st : page) : page :=
  match fields st !! el with
  | None => st
  | Some f =>
      let st1 := with_fields (<[el := set_invalid true f]> (fields st)) st in
      match field_small f with
      | None => st1
      | Some j =>
          match smalls st1 !! j with
          | None => st1
          | Some sm =>
              let orig := if truthy (originalText sm) then originalText sm
                          else Some (innerText sm) in
              with_smalls (<[j := mkSmall message orig true]> (smalls st1)) st1
          end
      end
  end.

Definition clearError (el : nat) (st : page) : page :=
  match fields st !! el with
  | None => st
  | Some f =>
      let st1 := with_fields (<[el := set_invalid false f]> (fields st)) st in
      match field_small f with
      | None => st1
      | Some j =>
          match smalls st1 !! j with
          | None => st1
          | Some sm =>
              if truthy (originalText sm)
              then with_smalls
                     (<[j := mkSmall (default "" (originalText sm)) (originalText sm) false]>
                        (smalls st1)) st1
              else st1
          end
      end
  end.

Definition error_text (f : field) : string :=
  let v := validity f in
  if valueMissing v then "This field is required."
  else if rangeUnderflow v then "Value must be at least " +:+ field_min f +:+ "."
  else if rangeOverflow v then "Value cannot be more than " +:+ field_max f +:+ "."
  else if badInput v then "Please enter a valid number."
  else "The value you entered is invalid.".

Definition validateInput (el : nat) (st : page) : bool * page :=
  let st1 := clearError el st in
  match fields st1 !! el with
  | None => (true, st1)
  | Some f =>
      if field_disabled f then (true, st1)
      else if negb (valid (validity f)) then (false, showError el (error_text f) st1)
      else (true, st1)
  end.

(** ** [validatePanel] *)

(** [Array.prototype.every] with a callback that changes the page: it
    stops at the first element the callback rejects. *)
Fixpoint every {A S : Type} (f : A -> S -> bool * S) (l : list A) (s : S) : bool * S :=
  match l with
  | [] => (true, s)
  | x :: r => let (ok, s') := f x s in if ok then every f r s' else (false, s')
  end.

Definition is_enabled (st : page) (i : nat) : bool :=
  match fields st !! i with Some f => negb (field_disabled f) | None => false end.

(** [root.querySelectorAll("input:not([disabled]), select:not([disabled])")] *)
Definition enabled_fields (st : page) (l : list nat) : list nat :=
  List.filter (is_enabled st) l.

Definition validatePanel (p : nat) (st : page) : bool * page :=
  match panels st !! p with
  | None => (true, st)
  | Some pn => every validateInput (enabled_fields st (panel_fields pn)) st
  end.

(** ** The listeners *)

(** A click inside the tab bar; [tab] is [e.target.closest(".tab")]. *)
Definition tab_click (tab : option nat) (st : page) : page :=
  match tab with
  | Some t =>
      match tabs st !! t with
      | Some tb => showPanelById (tab_target tb) st
      | None => st
      end
  | None => st
  end.

(** A [.next-btn]: its [data-target] and its enclosing panel. *)
Record next_btn : Type := mkNext {
  next_target : option string;
  next_panel : option nat
}.

(** A click inside the form; [nextBtn] is [e.target.closest(".next-btn")].
    A button outside every panel makes [validatePanel(null)] throw, which
    ends the listener. *)
Definition next_click (nextBtn : option next_btn) (st : page) : page :=
  match nextBtn with
  | None => st
  | Some b =>
      match next_panel b with
      | None => st
      | Some p =>
          let (ok, st1) := validatePanel p st in
          if ok then showPanelById (next_target b) st1 else st1
      end
  end.

(** The loop of the submit listener; the flag is [e.preventDefault()]. *)
Fixpoint submit_loop (l : list nat) (st : page) : bool * page :=
  match l with
  | [] => (false, st)
  | el :: r =>
      let (ok, st1) := validateInput el st in
      if ok then submit_loop r st1
      else
        (true,
         match fields st1 !! el with
         | Some f =>
             match field_panel f with
             | Some p =>
                 match panels st1 !! p with
                 | Some pn => showPanelById (Some (panel_id pn)) st1
                 | None => st1
                 end
             | None => st1
             end
         | None => st1
         end)
  end.

Definition submit (st : page) : bool * page :=
  submit_loop (enabled_fields st (form_fields st)) st.

(** The change listener of the smoker control.  [recheck] is the verdict
    the browser reaches on the dependent control once its [disabled],
    [required] and [value] have been rewritten. *)
Definition smoker_change (recheck : ValidityState) (st : page) : page :=
  match smokerStatusEl st with
  | None => st
  | Some sm =>
      let isSmoker :=
        match fields st !! sm with
        | Some f => String.eqb (field_value f) "1"
        | None => false
        end in
      match cigsPerDayEl st with
      | None => st
      | Some c =>
          match fields st !! c with
          | None => st
          | Some f =>
              let f' := mkField (field_kind f) (negb isSmoker) isSmoker
                          (if isSmoker then field_value f else "")
                          (field_min f) (field_max f) recheck (invalid f)
                          (field_small f) (field_panel f) in
              let st1 := with_fields (<[c := f']> (fields st)) st in
              if isSmoker then st1 else clearError c st1
          end
      end
  end.

(** The input listener of the form: numeric inputs and selects are
    validated as the user types. *)
Definition input_event (el : nat) (st : page) : page :=
  match fields st !! el with
  | Some f =>
      match field_kind f with
      | InputNumber | Select => snd (validateInput el st)
      | InputOther => st
      end
  | None => st
  end.

(** The keydown listener only cancels the Enter key inside an [<input>];
    the page is not touched. *)
Definition keydown (key : string) (el : nat) (st : page) : bool :=
  String.eqb key "Enter" &&
  match fields st !! el with
  | Some f => match field_kind f with Select => false | _ => true end
  | None => false
  end.

(** What the user, or a caller, can do to the form. *)
Inductive operation : Type :=
  | ShowPanel (targetId : option string)
  | TabClick (tab : option nat)
  | NextClick (nextBtn : option next_btn)
  | Submit
  | SmokerChange (recheck : ValidityState)
  | InputEvent (el : nat)
  | KeyDown (key : string) (el : nat).

Definition run (o : operation) (st : page) : page :=
  match o with
  | ShowPanel t => showPanelById t st
  | TabClick t => tab_click t st
  | NextClick b => next_click b st
  | Submit => snd (submit st)
  | SmokerChange v => smoker_change v st
  | InputEvent el => input_event el st
  | KeyDown _ _ => st
  end.

Definition active_count (st : page) : nat :=
  length (List.filter panel_active (panels st)).

Definition carriers (targetId : option string) (st : page) : nat :=
  length (List.filter (fun p => bool_decide (Some (panel_id p) = targetId)) (panels st)).


(** ** Notions used to state the properties *)

(** What validation never changes: everything but the [invalid] marks of
    the controls and the [<small>] lines. *)
Definition skeleton (st : page) :=
  (panels st, tabs st, ids st, form_fields st, smokerStatusEl st, cigsPerDayEl st,
   focused st, set_invalid false <$> fields st).

(** [validateInput] accepts the control. *)
Definition field_ok (st : page) (el : nat) : bool :=
  match fields st !! el with
  | Some f => field_disabled f || valid (validity f)
  | None => true
  end.

(** The controls [every] gets to: up to and including the first one that
    is rejected. *)
Fixpoint checked (st : page) (l : list nat) : list nat :=
  match l with
  | [] => []
  | el :: r => if field_ok st el then el :: checked st r else [el]
  end.

Definition first_rejected (st : page) (l : list nat) : option nat :=
  List.find (fun el => negb (field_ok st el)) l.

(** The identifier an operation hands to [showPanelById], if it gets
    there. *)
Definition switch_target (o : operation) (st : page) : option (option string) :=
  match o with
  | ShowPanel t => Some t
  | TabClick (Some t) => tab_target <$> tabs st !! t
  | NextClick (Some b) =>
      match next_panel b with
      | Some p =>
          match panels st !! p with
          | Some pn =>
              if forallb (field_ok st) (enabled_fields st (panel_fields pn))
              then Some (next_target b) else None
          | None => Some (next_target b)
          end
      | None => None
      end
  | Submit =>
      match first_rejected st (enabled_fields st (form_fields st)) with
      | Some el =>
          match fields st !! el with
          | Some f =>
              match field_panel f with
              | Some p => (fun pn => Some (panel_id pn)) <$> panels st !! p
              | None => None
              end
          | None => None
          end
      | None => None
      end
  | _ => None
  end.

(** The panels after an operation that may have switched. *)
Definition after_switch (t : option (option string)) (ps : list panel) : list panel :=
  match t with
  | Some id => map (show_panel id) ps
  | None => ps
  end.

(** Validating the controls of a list one after the other. *)
Definition validate_all (l : list nat) (s : page) : page :=
  foldl (fun s el => (validateInput el s).2) s l.

(** The error line of a control once its error is cleared: back to the
    saved text if there is one, as it was otherwise. *)
Definition restored (sm : small) : small :=
  if truthy (originalText sm)
  then mkSmall (default "" (originalText sm)) (originalText sm) false
  else sm.

(** ** Sample pages *)

Definition fine : ValidityState := mkValidity true false false false false.
Definition missing : ValidityState := mkValidity false true false false false.

Definition plain_field (v : ValidityState) (line : option nat) (pn : option nat) : field :=
  mkField InputNumber false true "" "0" "100" v false line pn.

(** A form of two steps, the first one showing. *)
Definition wizard : page :=
  mkPage
    [ mkPanel "step1" true (Some "false") [0%nat];
      mkPanel "step2" false (Some "true") [1%nat] ]
    [ mkTab (Some "step1") true (Some "true");
      mkTab (Some "step2") false (Some "false") ]
    [ plain_field fine (Some 0%nat) (Some 0%nat);
      plain_field fine (Some 1%nat) (Some 1%nat) ]
    [ mkSmall "Years" None false; mkSmall "kg/m2" None false ]
    [ ("predictForm", Some 0%nat); ("step1", Some 0%nat); ("step2", Some 1%nat) ]
    [ 0%nat; 1%nat ] None None None.

(** A disabled control that still shows an error. *)
Definition stale : page :=
  mkPage
    [ mkPanel "step1" true (Some "false") [0%nat] ] []
    [ mkField InputNumber true false "" "0" "60" missing true (Some 0%nat) (Some 0%nat) ]
    [ mkSmall "This field is required." (Some "Cigarettes per day") true ]
    [] [ 0%nat ] None None None.

(** A panel with two empty required controls, no error shown yet. *)
Definition two_empty : page :=
  mkPage
    [ mkPanel "step1" true (Some "false") [0%nat; 1%nat] ] []
    [ plain_field missing (Some 0%nat) (Some 0%nat);
      plain_field missing (Some 1%nat) (Some 0%nat) ]
    [ mkSmall "Years" None false; mkSmall "kg/m2" None false ]
    [] [ 0%nat; 1%nat ] None None None.

(** ** Further operations and notions *)

(** [showTabIndex(index)] for an integer index. *)
Definition showTabIndex (index : Z) (st : page) : page :=
  if ((index <? 0) || (Z.of_nat (length (panels st)) <=? index))%Z then st
  else match panels st !! Z.to_nat index with
       | Some p => showPanelById (Some (panel_id p)) st
       | None => st
       end.

(** The text a line keeps as its original once an error is shown on it. *)
Definition saved_text (sm : small) : option string :=
  if truthy (originalText sm) then originalText sm else Some (innerText sm).

(** The error line of a control after [validateInput]: restored when the
    control is accepted, showing the message otherwise. *)
Definition line_after (ok : bool) (f : field) (sm : small) : small :=
  if ok then restored sm else mkSmall (error_text f) (saved_text sm) true.

(** The line has something to go back to: a saved text, or a text of its
    own. *)
Definition has_text (sm : small) : bool :=
  truthy (originalText sm) || negb (String.eqb (innerText sm) "").

(** A control with an empty helper line. *)
Definition bare_line : page :=
  mkPage [ mkPanel "step1" true (Some "false") [0%nat] ] []
         [ plain_field missing (Some 0%nat) (Some 0%nat) ]
         [ mkSmall "" None false ] [] [ 0%nat ] None None None.

(** The smoker select set to "0" and a dependent control that holds a
    value and shows an error. *)
Definition quit_smoking : page :=
  mkPage [ mkPanel "step1" true (Some "false") [0%nat; 1%nat] ] []
         [ mkField Select false true "0" "" "" fine false None (Some 0%nat);
           mkField InputNumber false true "700" "0" "60"
                   (mkValidity false false false true false) true (Some 0%nat) (Some 0%nat) ]
         [ mkSmall "Value cannot be more than 60." (Some "Cigarettes per day") true ]
         [] [ 0%nat; 1%nat ] (Some 0%nat) (Some 1%nat) None.

End Navigator.

(* ===================================================================== *)
(** * The live-update cycle ([static/js/resScript.js])                    *)
(* ===================================================================== *)

Module Updater.
Import JS Slider.

(** ** The results view *)

Record button : Type := mkButton {
  btn_disabled : bool;
  btn_text : string
}.

(** An item of the suggestions list: set through [innerHTML] or through
    [textContent]. *)
Inductive li : Type :=
  | LiHtml (html : string)
  | LiText (text : string).

(** The body of the request: [{ base_inputs, modified }]. *)
Record payload : Type := mkPayload {
  base_inputs : gmap string string;
  modified : gmap string string
}.

(** What the listener does to the world outside the page. *)
Inductive effect : Type :=
  | ConsoleWarn (msg : string)
  | ConsoleError (msg : string)
  | Alert (msg : string)
  | Fetch (url : string) (body : payload).

(** The sliders in document order, the store of their readouts, the update
    button, the text of the result element and the items of the
    suggestions list (each [None] when the page has no such element), and
    the effects so far. *)
Record view : Type := mkView {
  sliders : list input;
  spans : list string;
  updateBtn : button;
  result : option string;
  suggestions : option (list li);
  log : list effect
}.

Definition with_sliders (l : list input) (v : view) : view :=
  mkView l (spans v) (updateBtn v) (result v) (suggestions v) (log v).
Definition with_spans (l : list string) (v : view) : view :=
  mkView (sliders v) l (updateBtn v) (result v) (suggestions v) (log v).
Definition with_button (b : button) (v : view) : view :=
  mkView (sliders v) (spans v) b (result v) (suggestions v) (log v).
Definition with_result (r : option string) (v : view) : view :=
  mkView (sliders v) (spans v) (updateBtn v) r (suggestions v) (log v).
Definition with_suggestions (l : option (list li)) (v : view) : view :=
  mkView (sliders v) (spans v) (updateBtn v) (result v) l (log v).
Definition emit (e : effect) (v : view) : view :=
  mkView (sliders v) (spans v) (updateBtn v) (result v) (suggestions v) (log v ++ [e])%list.

(** ** The response of the prediction endpoint *)

Inductive tip : Type :=
  | TipText (t : string)
  | TipObject (feature tip : string).

Record item : Type := mkItem {
  item_name : string;
  item_value : value
}.

Record data : Type := mkData {
  final_cat : option string;
  final_prob : option num;
  tips : option (list tip);
  data_suggestions : option (list tip);
  top_features_values : option (list item)
}.

(** How the request ends: [fetch] rejects, or a response arrives whose
    body parses as JSON or does not.  A body that parses is taken to have
    the shape the listener reads without an exception: an object whose
    [final_cat] is a string and whose [final_prob] is a number, whose
    [tips] and [suggestions] are lists of strings and of objects with
    string fields, and whose [top_features_values] is a list of objects
    with a string [name]; a field can be missing. *)
Inductive outcome : Type :=
  | Rejected (reason : string)
  | Response (ok : bool) (status : Z) (body : string + data).

(** ** Live readouts *)

(** [span.textContent = el.value] for the readout of a slider;
    [findValueSpanForInput] is the [value_span] of the element. *)
Definition show_value (s : input) (v : view) : view :=
  match value_span s with
  | Some j => with_spans (<[j := input_value s]> (spans v)) v
  | None => v
  end.

(** The [update] closure of the [input], [change] and [wheel] listeners. *)
Definition update (el : nat) (v : view) : view :=
  match sliders v !! el with
  | Some s =>
      let s' := applyLimitsFromMap s in
      show_value s' (with_sliders (<[el := s']> (sliders v)) v)
  | None => v
  end.

(** What the [DOMContentLoaded] listener does to the sliders. *)
Definition init (v : view) : view :=
  let v1 := with_sliders (map applyLimitsFromMap (sliders v)) v in
  foldl (fun w s => show_value s w) v1 (sliders v1).

(** ** The click listener of the update button *)

(** [s.dataset.feat || s.id || s.name || null] *)
Definition featKey (s : input) : option string :=
  let k := featRaw s in if truthy_string k then Some k else None.

(** [modified[featKey] = s.value]; storing a string under [__proto__]
    creates no property. *)
Definition record_value (m : gmap string string) (s : input) : gmap string string :=
  match featKey s with
  | Some k => if String.eqb k "__proto__" then m else <[k := input_value s]> m
  | None => m
  end.

Definition collect_modified (l : list input) : gmap string string :=
  foldl record_value ∅ l.

(** The listener up to the request: [None] when it returns early. *)
Definition click_begin (BASE_INPUTS : option (gmap string string)) (v : view)
  : view * option payload :=
  let modified := collect_modified (sliders v) in
  match BASE_INPUTS with
  | None =>
      (emit (Alert "Base input values missing — update cannot run.")
         (emit (ConsoleWarn "BASE_INPUTS is not defined on page. Cannot send base_inputs.") v),
       None)
  | Some base =>
      let body := mkPayload base modified in
      (emit (Fetch "/predict" body) (with_button (mkButton true "Updating...") v),
       Some body)
  end.

(** [(data.final_prob * 100).toFixed(1) + "%"]: the number of the body is
    the double nearest to its literal, and the product is that of
    binary64. *)
Definition times100 (p : num) : double := mul (to_double p) (to_double (of_Z 100)).

Definition result_text (d : data) : option string :=
  if truthy_string (default "" (final_cat d)) then final_cat d
  else match final_prob d with
       | Some p => Some (toFixed1 (times100 p) +:+ "%")
       | None => None
       end.

Definition render_tip (t : tip) : li :=
  match t with
  | TipObject feature tip =>
      if truthy_string feature && truthy_string tip
      then LiHtml ("<strong>" +:+ feature +:+ "</strong> — " +:+ tip)
      else LiText "[object Object]"
  | TipText s => LiText s
  end.

(** ** The selector of a correction

    The listener splices the returned name into the text
    [input.slider[data-feat="NAME"]] and hands it to [querySelector],
    which reads it as CSS.  A quote inside the name ends
    the quoted string early, and what follows it is read as more selector
    text; a line break inside a quoted string leaves no selector at all.

    The texts read here are the lists of compounds
    [input.slider[ATTR="TEXT"]], separated by commas and without white
    space, where ATTR is [data-feat], [id] or [name] and TEXT holds no
    backslash and no NUL (an escape and a NUL stand for other characters).
    Every other text is left unread. *)

Definition quote : ascii := "034"%char.

(** LF, FF and CR: the line breaks of CSS. *)
Definition is_line_break (c : ascii) : bool :=
  ((code c =? 10) || (code c =? 12) || (code c =? 13))%N.

Inductive attribute : Type := DataFeat | Id | Name.

Inductive selector : Type :=
  | Compounds (alts : list (attribute * string))
  | NoSelector          (* [querySelector] throws a [SyntaxError] *)
  | Unread.             (* a text this development does not read *)

(** How a quoted string goes on from behind its opening quote. *)
Inductive quoted : Type :=
  | Closed (text rest : string)   (* the string, and what follows its closing quote *)
  | Broken                        (* a line break comes first *)
  | Escaped.                      (* a backslash, a NUL or the end of the text comes first *)

Fixpoint read_quoted (s : string) : quoted :=
  match s with
  | EmptyString => Escaped
  | String c r =>
      if (c =? quote)%char then Closed "" r
      else if (c =? "\")%char || (code c =? 0)%N then Escaped
      else if is_line_break c then Broken
      else match read_quoted r with
           | Closed t rest => Closed (String c t) rest
           | q => q
           end
  end.

(** What is left of [s] behind the prefix [p]. *)
Fixpoint behind (p s : string) : option string :=
  match p, s with
  | EmptyString, _ => Some s
  | String a p', String b s' => if (a =? b)%char then behind p' s' else None
  | String _ _, EmptyString => None
  end.

(** The head of a compound up to the opening quote of its text. *)
Definition opener (s : string) : option (attribute * string) :=
  match behind "input.slider[" s with
  | None => None
  | Some r =>
      match behind ("data-feat=" +:+ String quote "") r with
      | Some t => Some (DataFeat, t)
      | None =>
          match behind ("id=" +:+ String quote "") r with
          | Some t => Some (Id, t)
          | None =>
              match behind ("name=" +:+ String quote "") r with
              | Some t => Some (Name, t)
              | None => None
              end
          end
      end
  end.

(** A compound on [id] or [name] with an empty text asks for an attribute
    that is there and empty, which the properties [id] and [name] of an
    element do not tell from a missing one: it is left unread. *)
Definition readable (a : attribute) (t : string) : bool :=
  match a with
  | DataFeat => true
  | _ => negb (String.eqb t "")
  end.

(** A closing bracket right behind a complete compound matches no opening
    one, and a line break inside a quoted string ends the string as a bad
    one: in both cases the text is no selector, whatever follows. *)
Fixpoint compounds (fuel : nat) (s : string) : selector :=
  match fuel with
  | O => Unread
  | S fuel' =>
      match opener s with
      | None => Unread
      | Some (a, r) =>
          match read_quoted r with
          | Broken => NoSelector
          | Escaped => Unread
          | Closed t rest =>
              if negb (readable a t) then Unread else
              match rest with
              | String "]" EmptyString => Compounds [(a, t)]
              | String "]" (String "," r') =>
                  match compounds fuel' r' with
                  | Compounds l => Compounds ((a, t) :: l)
                  | other => other
                  end
              | String "]" (String "]" _) => NoSelector
              | _ => Unread
              end
          end
      end
  end.

(** [`input.slider[data-feat="${item.name}"]`] *)
Definition selector_text (name : string) : string :=
  "input.slider[data-feat=" +:+ String quote (name +:+ String quote "]").

Definition selector_of (name : string) : selector :=
  compounds (String.length (selector_text name)) (selector_text name).

(** An attribute test on a slider; the tests compare exactly. *)
Definition holds (s : input) (c : attribute * string) : bool :=
  match c with
  | (DataFeat, t) => bool_decide (dataset_feat s = Some t)
  | (Id, t) => String.eqb (input_id s) t
  | (Name, t) => String.eqb (input_name s) t
  end.

(** The first element of the document that one of the compounds matches;
    only the [input.slider] elements can match. *)
Definition select (alts : list (attribute * string)) (l : list input)
  : option (nat * input) :=
  list_find (fun s => existsb (holds s) alts = true) l.

(** The slider [document.querySelector(...)] returns for a name, when it
    returns one. *)
Definition find_slider (name : string) (l : list input) : option (nat * input) :=
  match selector_of name with
  | Compounds alts => select alts l
  | _ => None
  end.

(** A name that holds none of the characters CSS treats specially inside
    a quoted string. *)
Definition plain_char (c : ascii) : bool :=
  negb ((c =? quote)%char || (c =? "\")%char || (code c =? 0)%N || is_line_break c).

Definition plain (name : string) : bool :=
  forallb plain_char (list_ascii_of_string name).

(** ** The corrections *)

Definition value_text (x : value) : string :=
  match x with VNum n => to_string n | VStr s => s end.

(** How a stretch of the listener ends: it runs to its end, it throws with
    the page as it is by then, or it meets a selector that is left
    unread. *)
Inductive ending : Type :=
  | Completes (v : view)
  | Throws (err : string) (v : view)
  | Beyond.

(** [String(err)] for the exception that [querySelector] raises on a text
    that is no selector: its name; the message that follows the name is
    worded by the engine and left out. *)
Definition SyntaxError : string := "SyntaxError".

(** [if (slider) { slider.value = item.value; applyLimitsFromMap(slider);
    ... span.textContent = slider.value }] *)
Definition reflect (slider : option (nat * input)) (x : value) (v : view) : view :=
  match slider with
  | Some (i, s) =>
      let s' := applyLimitsFromMap (set_value (value_text x) s) in
      show_value s' (with_sliders (<[i := s']> (sliders v)) v)
  | None => v
  end.

(** One call of the callback of [data.top_features_values.forEach]. *)
Definition correct (v : view) (it : item) : ending :=
  match selector_of (item_name it) with
  | Compounds alts => Completes (reflect (select alts (sliders v)) (item_value it) v)
  | NoSelector => Throws SyntaxError v
  | Unread => Beyond
  end.

(** [forEach]: an exception ends the loop. *)
Fixpoint forEach (l : list item) (v : view) : ending :=
  match l with
  | [] => Completes v
  | it :: rest =>
      match correct v it with
      | Completes w => forEach rest w
      | other => other
      end
  end.

(** The first steps of [try] once the JSON body is there: the result
    element and the suggestions list. *)
Definition show_result (d : data) (v : view) : view :=
  match result v, result_text d with
  | Some _, Some t => with_result (Some t) v
  | _, _ => v
  end.

Definition show_tips (d : data) (v : view) : view :=
  match (match tips d with Some l => Some l | None => data_suggestions d end) with
  | Some l =>
      match suggestions v with
      | Some _ => with_suggestions (Some (map render_tip l)) v
      | None => v
      end
  | None => v
  end.

(** The body of [try] once the JSON body is there. *)
Definition patch (d : data) (v : view) : ending :=
  let v2 := show_tips d (show_result d v) in
  match top_features_values d with
  | Some l => forEach l v2
  | None => Completes v2
  end.

(** The [try] block from the point where the request settles. *)
Definition try_block (o : outcome) (v : view) : ending :=
  match o with
  | Rejected reason => Throws reason v
  | Response false status _ =>
      Throws ("Error: Server returned " +:+ to_string (of_Z status)) v
  | Response true _ (inl reason) => Throws reason v
  | Response true _ (inr d) => patch d v
  end.

(** The [catch] block. *)
Definition failed (err : string) (v : view) : view :=
  emit (Alert "Failed to update prediction. Check server logs.")
       (emit (ConsoleError ("Update failed: " +:+ err)) v).

(** The listener from the point where the request settles: [try], [catch]
    and [finally].  [None] when the cycle meets a selector that is left
    unread. *)
Definition click_end (o : outcome) (v : view) : option view :=
  match try_block o v with
  | Completes w => Some (with_button (mkButton false "Update Prediction") w)
  | Throws err w => Some (with_button (mkButton false "Update Prediction") (failed err w))
  | Beyond => None
  end.

(** A whole update cycle. *)
Definition click (BASE_INPUTS : option (gmap string string)) (o : outcome) (v : view)
  : option view :=
  match click_begin BASE_INPUTS v with
  | (v1, Some _) => click_end o v1
  | (v1, None) => Some v1
  end.

Definition is_fetch (e : effect) : bool :=
  match e with Fetch _ _ => true | _ => false end.


(** Two sliders without [data-feat]: one known by its [id], one by its
    [name]. *)
Definition by_id_only : input := mkInput None "age" "" "18" "100" "1" "40" None.
Definition by_name_only : input := mkInput None "" "bmi" "10" "60" "0.1" "22.5" None.

Definition results_view : view :=
  mkView [by_id_only; by_name_only] [] (mkButton false "Update Prediction")
         (Some "41.0%") (Some []) [].


(** A returned name with a quote inside: spliced into the selector it
    closes the test on [data-feat] and adds a test on [id]. *)
Definition injected : string :=
  "x" +:+ String quote ("],input.slider[id=" +:+ String quote "age").


(** A returned name with a line break inside, behind a name that a slider
    carries. *)
Definition broken_name : string := "b" +:+ String "010"%char "mi".

(** ** Notions used to state further properties *)


(** The value of the last slider of the list that goes by the key. *)
Definition last_value (k : string) (l : list input) : option string :=
  input_value <$> List.find (fun s => bool_decide (featKey s = Some k)) (rev l).

Definition two_ages : view :=
  mkView [ mkInput (Some "age") "a1" "" "18" "100" "1" "40" (Some 0%nat);
           mkInput (Some "age") "a2" "" "18" "100" "1" "50" (Some 1%nat) ]
         ["40"; "50"] (mkButton false "Update Prediction") (Some "41.0%") (Some []) [].

End Updater.

(* ===================================================================== *)
(** * Properties of the host functions                                    *)
(* ===================================================================== *)

Module JSFacts.
Import JS.

Example parseFloat_samples :
  parseFloat "30" = Fin 30 0 /\ parseFloat "  -12.50e1px" = Fin (-1250) (-1) /\
  parseFloat ".5" = Fin 5 (-1) /\ parseFloat "1e" = Fin 1 0 /\
  parseFloat "abc" = NaN /\ parseFloat "" = NaN /\ parseFloat "." = NaN /\
  parseFloat "-Infinity" = Inf true.
Proof. repeat split. Qed.

Example to_string_samples :
  to_string (Fin 18 0) = "18" /\ to_string (Fin 1 (-1)) = "0.1" /\
  to_string (Fin 1250 (-1)) = "125" /\ to_string (Fin (-5) (-1)) = "-0.5" /\
  to_string (Fin 5 (-7)) = "5e-7" /\ to_string (Fin 1 21) = "1e+21" /\
  to_string (Fin 12345 (-3)) = "12.345".
Proof. repeat split. Qed.

(** ** Digits *)

(** Settle a goal about a digit [d] by trying the ten digits. *)
Ltac by_digit d :=
  assert (d = 0 \/ d = 1 \/ d = 2 \/ d = 3 \/ d = 4 \/
          d = 5 \/ d = 6 \/ d = 7 \/ d = 8 \/ d = 9) as Hd by lia;
  repeat (destruct Hd as [-> | Hd]; [reflexivity |]); subst; reflexivity.

Lemma digit_char_is_digit d : 0 <= d < 10 -> is_digit (digit_char d) = true.
Proof. intros H. by_digit d. Qed.

Lemma digit_val_char d : 0 <= d < 10 -> digit_val (digit_char d) = d.
Proof. intros H. by_digit d. Qed.

Lemma digits_val_acc l a :
  fold_left (fun a c => 10 * a + digit_val c) l a
  = a * 10 ^ Z.of_nat (length l) + digits_val l.
Proof.
  unfold digits_val. revert a.
  induction l as [| c l IH]; intros a.
  - simpl. lia.
  - cbn [fold_left length]. rewrite IH, (IH (10 * 0 + digit_val c)).
    rewrite Nat2Z.inj_succ, Z.pow_succ_r by lia. ring.
Qed.

Lemma digits_val_cons c l :
  digits_val (c :: l) = digit_val c * 10 ^ Z.of_nat (length l) + digits_val l.
Proof.
  unfold digits_val at 1. cbn [fold_left]. rewrite digits_val_acc. ring.
Qed.

Lemma digits_val_app l1 l2 :
  digits_val (l1 ++ l2) = digits_val l1 * 10 ^ Z.of_nat (length l2) + digits_val l2.
Proof.
  unfold digits_val at 1 2. rewrite fold_left_app.
  rewrite digits_val_acc. reflexivity.
Qed.

Lemma digits_val_zeros j : digits_val (zeros j) = 0.
Proof.
  unfold zeros. induction (Z.to_nat j) as [| n IH]; [reflexivity |].
  cbn [repeat]. rewrite digits_val_cons, IH. reflexivity.
Qed.

Lemma length_zeros j : 0 <= j -> Z.of_nat (length (zeros j)) = j.
Proof. intros. unfold zeros. rewrite repeat_length. lia. Qed.

Lemma digits_fuel_val f : forall n acc,
  0 <= n < 2 ^ Z.of_nat f ->
  digits_val (digits_fuel f n acc) = n * 10 ^ Z.of_nat (length acc) + digits_val acc.
Proof.
  induction f as [| f IH]; intros n acc Hn.
  - change (2 ^ Z.of_nat 0) with 1 in Hn. assert (n = 0) by lia. subst. simpl. lia.
  - cbn [digits_fuel]. destruct (Z.leb_spec n 0) as [H0 | H0].
    + assert (n = 0) by lia. subst. lia.
    + rewrite IH.
      * rewrite digits_val_cons, digit_val_char by (apply Z.mod_pos_bound; lia).
        cbn [length]. rewrite Nat2Z.inj_succ, Z.pow_succ_r by lia.
        rewrite (Z.div_mod n 10) at 3 by lia. ring.
      * rewrite Nat2Z.inj_succ, Z.pow_succ_r in Hn by lia.
        split; [apply Z.div_pos; lia |].
        apply Z.div_lt_upper_bound; lia.
Qed.

Lemma digits_fuel_digit f : forall n acc,
  Forall (fun c => is_digit c = true) acc ->
  Forall (fun c => is_digit c = true) (digits_fuel f n acc).
Proof.
  induction f as [| f IH]; intros n acc Hacc; [exact Hacc |].
  cbn [digits_fuel]. destruct (n <=? 0); [exact Hacc |].
  apply IH. constructor; [| exact Hacc].
  apply digit_char_is_digit, Z.mod_pos_bound. lia.
Qed.

Lemma digits_val_digits n : 0 <= n -> digits_val (digits n) = n.
Proof.
  intros Hn. unfold digits. destruct (Z.leb_spec n 0) as [H0 | H0].
  - assert (n = 0) by lia. subst. reflexivity.
  - rewrite digits_fuel_val; [change (digits_val []) with 0; change (Z.of_nat (length (@nil ascii))) with 0; rewrite Z.pow_0_r; lia |].
    split; [lia |].
    rewrite Nat2Z.inj_succ, Z2Nat.id by apply Z.log2_nonneg.
    apply Z.log2_spec. lia.
Qed.

Lemma digits_digit n : Forall (fun c => is_digit c = true) (digits n).
Proof.
  unfold digits. destruct (n <=? 0).
  - repeat constructor.
  - apply digits_fuel_digit. constructor.
Qed.

(** Trailing zeros *)

Lemma drop_zeros_split l :
  exists j, l = (repeat "0"%char j ++ drop_zeros l)%list.
Proof.
  induction l as [| c l [j IH]].
  - exists 0%nat. reflexivity.
  - cbn [drop_zeros]. destruct (Ascii.eqb_spec c "0") as [-> | Hc].
    + exists (S j). cbn [repeat app]. congruence.
    + exists 0%nat. reflexivity.
Qed.

Lemma rev_repeat {A} (x : A) j : rev (repeat x j) = repeat x j.
Proof.
  induction j as [| j IH]; [reflexivity |].
  cbn [repeat rev]. rewrite IH. clear IH.
  induction j as [| j IH]; [reflexivity |]. cbn [repeat app]. congruence.
Qed.

Lemma strip_split l :
  exists j, l = (strip_trailing_zeros l ++ repeat "0"%char j)%list.
Proof.
  unfold strip_trailing_zeros.
  destruct (drop_zeros_split (rev l)) as [j Hj].
  exists j. rewrite <- (rev_involutive l) at 1. rewrite Hj at 1.
  rewrite rev_app_distr, rev_repeat. reflexivity.
Qed.

Lemma strip_digit l :
  Forall (fun c => is_digit c = true) l ->
  Forall (fun c => is_digit c = true) (strip_trailing_zeros l).
Proof.
  intros H. destruct (strip_split l) as [j Hj]. rewrite Hj in H.
  apply Forall_app in H. tauto.
Qed.

(** Strings *)

Lemma str_app l1 l2 : str (l1 ++ l2) = str l1 +:+ str l2.
Proof.
  unfold str. induction l1 as [| c l1 IH]; [reflexivity |].
  cbn. rewrite IH. reflexivity.
Qed.

Lemma span_digits_app l r :
  Forall (fun c => is_digit c = true) l -> stops r ->
  span_digits (str l +:+ r) = (l, r).
Proof.
  intros Hl Hr. induction Hl as [| c l Hc _ IH].
  - destruct r as [| c r]; [reflexivity |].
    change (str [] +:+ String c r) with (String c r).
    cbn [span_digits]. unfold stops in Hr. rewrite Hr. reflexivity.
  - change (str (c :: l) +:+ r) with (String c (str l +:+ r)).
    cbn [span_digits]. rewrite Hc, IH. reflexivity.
Qed.

Lemma append_empty s : s +:+ "" = s.
Proof.
  induction s as [| c s IH]; [reflexivity |].
  change (String c s +:+ "") with (String c (s +:+ "")). rewrite IH. reflexivity.
Qed.

Lemma span_digits_all l :
  Forall (fun c => is_digit c = true) l -> span_digits (str l) = (l, "").
Proof.
  intros H. pose proof (span_digits_app l "" H I) as E.
  rewrite append_empty in E. exact E.
Qed.

(** Scaling *)

Lemma ten_nonzero : ~ ((10 # 1) == 0)%Q.
Proof. intros H. discriminate H. Qed.

Lemma to_Q_scale s j e :
  0 <= j -> (to_Q (s * 10 ^ j) e == to_Q s (j + e))%Q.
Proof.
  intros Hj. unfold to_Q.
  rewrite inject_Z_mult, (Zpower_Qpower 10 j Hj).
  rewrite (Qpower_plus (10 # 1) j e ten_nonzero).
  change (inject_Z 10) with (10 # 1). ring.
Qed.

Lemma to_Q_opp m e : (to_Q (- m) e == - to_Q m e)%Q.
Proof. unfold to_Q. rewrite inject_Z_opp. ring. Qed.

(** Reading back the shapes [String] prints *)

Local Abbreviation all_digits := (Forall (fun c => is_digit c = true)).

Lemma literal_plain X :
  all_digits X -> X <> [] ->
  decimal_literal (str X) = Some (digits_val X, 0).
Proof.
  intros HX Hne. unfold decimal_literal.
  rewrite (span_digits_all X HX). rewrite app_nil_r.
  destruct X; [congruence | reflexivity].
Qed.

Lemma literal_point A B :
  all_digits A -> all_digits B -> (A ++ B)%list <> [] ->
  decimal_literal (str A +:+ "." +:+ str B)
  = Some (digits_val (A ++ B), - Z.of_nat (length B)).
Proof.
  intros HA HB Hne. unfold decimal_literal.
  rewrite (span_digits_app A ("." +:+ str B) HA) by reflexivity.
  change ("." +:+ str B) with (String "." (str B)). cbv beta iota.
  rewrite (span_digits_all B HB).
  destruct (A ++ B)%list; [congruence | reflexivity].
Qed.

Lemma digits_nonempty E : 0 <= E -> digits E <> [].
Proof.
  intros HE H. pose proof (digits_val_digits E HE) as HV.
  rewrite H in HV. change (digits_val []) with 0 in HV. subst E.
  discriminate H.
Qed.

Lemma exponent_tail (neg : bool) E :
  0 <= E ->
  exponent_part ((if neg then "e-" else "e+") +:+ str (digits E))
  = if neg then - E else E.
Proof.
  intros HE. pose proof (digits_digit E) as HD.
  pose proof (digits_val_digits E HE) as HV.
  pose proof (digits_nonempty E HE) as Hne.
  destruct neg.
  - change ("e-" +:+ str (digits E)) with (String "e" (String "-" (str (digits E)))).
    cbn [exponent_part Ascii.eqb Bool.eqb orb take_sign].
    rewrite (span_digits_all _ HD). destruct (digits E); [congruence | now rewrite HV].
  - change ("e+" +:+ str (digits E)) with (String "e" (String "+" (str (digits E)))).
    cbn [exponent_part Ascii.eqb Bool.eqb orb take_sign].
    rewrite (span_digits_all _ HD). destruct (digits E); [congruence | now rewrite HV].
Qed.

Lemma stops_tail (neg : bool) t : stops ((if neg then "e-" else "e+") +:+ t).
Proof. destruct neg; reflexivity. Qed.

Lemma literal_exp X (neg : bool) E :
  all_digits X -> X <> [] -> 0 <= E ->
  decimal_literal (str X +:+ (if neg then "e-" else "e+") +:+ str (digits E))
  = Some (digits_val X, if neg then - E else E).
Proof.
  intros HX Hne HE. unfold decimal_literal.
  rewrite (span_digits_app X _ HX (stops_tail neg _)).
  pose proof (exponent_tail neg E HE) as HT.
  replace (match (if neg then "e-" else "e+") +:+ str (digits E) with
           | String "." r => span_digits r
           | _ => ([], (if neg then "e-" else "e+") +:+ str (digits E))
           end)
    with (@nil ascii, (if neg then "e-" else "e+") +:+ str (digits E))
    by (destruct neg; reflexivity).
  rewrite HT, app_nil_r. destruct X; [congruence |].
  f_equal. f_equal. cbn [length]. lia.
Qed.

Lemma literal_point_exp A B (neg : bool) E :
  all_digits A -> all_digits B -> (A ++ B)%list <> [] -> 0 <= E ->
  decimal_literal
    (str A +:+ "." +:+ str B +:+ (if neg then "e-" else "e+") +:+ str (digits E))
  = Some (digits_val (A ++ B), (if neg then - E else E) - Z.of_nat (length B)).
Proof.
  intros HA HB Hne HE. unfold decimal_literal.
  rewrite (span_digits_app A _ HA) by reflexivity.
  match goal with
  | |- context [ "." +:+ ?t ] => change ("." +:+ t) with (String "." t)
  end.
  cbv beta iota.
  rewrite (span_digits_app B _ HB (stops_tail neg _)).
  rewrite (exponent_tail neg E HE).
  destruct (A ++ B)%list; [congruence | reflexivity].
Qed.

Lemma digits_val_repeat j : digits_val (repeat "0"%char j) = 0.
Proof.
  induction j as [| n IH]; [reflexivity |].
  cbn [repeat]. rewrite digits_val_cons, IH. reflexivity.
Qed.

Lemma zeros_digits j : all_digits (zeros j).
Proof. unfold zeros. induction (Z.to_nat j); constructor; auto. Qed.

(** [String] of a positive decimal reads back as the same number. *)
Lemma unsigned_roundtrip a e :
  0 < a ->
  exists m' e',
    decimal_literal (unsigned_to_string a e) = Some (m', e') /\
    (to_Q m' e' == to_Q a e)%Q.
Proof.
  intros Ha. unfold unsigned_to_string.
  pose proof (digits_digit a) as HD.
  pose proof (digits_val_digits a ltac:(lia)) as HV.
  remember (digits a) as all eqn:Eall. clear Eall.
  destruct (strip_split all) as [j Hj].
  pose proof (strip_digit all HD) as HS.
  remember (strip_trailing_zeros all) as ds eqn:Eds. clear Eds.
  assert (a = digits_val ds * 10 ^ Z.of_nat j) as Hval.
  { rewrite <- HV, Hj, digits_val_app, digits_val_repeat, repeat_length. lia. }
  assert (Z.of_nat (length all) = Z.of_nat (length ds) + Z.of_nat j) as Hlen.
  { rewrite Hj, length_app, repeat_length. lia. }
  assert (ds <> []) as Hne.
  { intros ->. change (digits_val []) with 0 in Hval. lia. }
  cbv zeta. rewrite Hlen.
  set (k := Z.of_nat (length ds)) in *.
  set (n := k + Z.of_nat j + e).
  assert (0 < k) as Hk by (destruct ds; [congruence | subst k; cbn [length]; lia]).
  assert (forall m' e', e' = n - k -> (to_Q m' e' == to_Q (m' * 10 ^ Z.of_nat j) e)%Q) as Hscale.
  { intros m' e' ->. rewrite to_Q_scale by lia.
    replace (Z.of_nat j + e) with (n - k) by (subst n; lia). reflexivity. }
  assert (exists m' e',
            decimal_literal
              (match ds with
               | [d] => str [d] +:+ (if n - 1 <? 0 then "e-" else "e+")
                          +:+ str (digits (Z.abs (n - 1)))
               | d :: (_ :: _) as rest =>
                   str [d] +:+ "." +:+ str rest
                     +:+ (if n - 1 <? 0 then "e-" else "e+")
                     +:+ str (digits (Z.abs (n - 1)))
               | [] => (if n - 1 <? 0 then "e-" else "e+")
                         +:+ str (digits (Z.abs (n - 1)))
               end) = Some (m', e') /\
            (to_Q m' e' == to_Q a e)%Q) as Hexp.
  { assert ((if n - 1 <? 0 then - Z.abs (n - 1) else Z.abs (n - 1)) = n - 1) as Hex
      by (destruct (Z.ltb_spec (n - 1) 0); lia).
    destruct ds as [| d [| d' rest]]; [congruence | |].
    - eexists _, _. split.
      + apply literal_exp; [exact HS | discriminate | lia].
      + rewrite Hex, Hval. apply Hscale. subst k. cbn [length]. lia.
    - pose proof (Forall_inv HS) as Hd. pose proof (Forall_inv_tail HS) as HS'.
      eexists _, _. split.
      + apply (literal_point_exp [d] (d' :: rest));
          [repeat constructor; exact Hd | exact HS' | discriminate | lia].
      + rewrite Hex, Hval. apply Hscale.
        subst k. cbn [length]. lia. }
  destruct (Z.leb_spec k n) as [C1 | C1]; [destruct (Z.leb_spec n 21) as [C1' | C1'] |];
    cbn [andb].
  - (* digits followed by zeros *)
    eexists _, _. split.
    + apply literal_plain.
      * apply Forall_app. split; [exact HS | apply zeros_digits].
      * destruct ds; [congruence | discriminate].
    + rewrite digits_val_app, digits_val_zeros, length_zeros by lia.
      rewrite Hval, Z.add_0_r. rewrite !to_Q_scale by lia.
      replace (n - k + 0) with (Z.of_nat j + e) by (subst n; lia). reflexivity.
  - (* beyond 21 digits: exponent notation *)
    destruct (Z.ltb_spec 0 n), (Z.leb_spec n 21); try lia.
    destruct (Z.ltb_spec (-6) n), (Z.leb_spec n 0); try lia.
    cbn [andb]. exact Hexp.
  - destruct (Z.ltb_spec 0 n) as [C2 | C2]; [destruct (Z.leb_spec n 21) as [C2' | C2'] |];
      cbn [andb].
    + (* a decimal point inside the digits *)
      eexists _, _. split.
      * apply literal_point.
        -- apply Forall_take, HS.
        -- apply Forall_drop, HS.
        -- rewrite take_drop. exact Hne.
      * rewrite take_drop, length_drop, Hval. apply Hscale.
        subst k. lia.
    + destruct (Z.ltb_spec (-6) n), (Z.leb_spec n 0); try lia.
      cbn [andb]. exact Hexp.
    + destruct (Z.ltb_spec (-6) n) as [C3 | C3]; cbn [andb].
      * destruct (Z.leb_spec n 0); [| lia].
        (* a leading 0. *)
        eexists _, _. split.
        -- apply (literal_point ["0"%char] (zeros (- n) ++ ds)).
           ++ repeat constructor.
           ++ apply Forall_app. split; [apply zeros_digits | exact HS].
           ++ discriminate.
        -- change (["0"%char] ++ zeros (- n) ++ ds)%list
             with ("0"%char :: zeros (- n) ++ ds)%list.
           rewrite digits_val_cons, digits_val_app, digits_val_zeros.
           change (digit_val "0") with 0.
           rewrite length_app, Nat2Z.inj_add, length_zeros by lia.
           rewrite Hval, Z.mul_0_l, !Z.add_0_l.
           apply Hscale. subst k. lia.
      * exact Hexp.
Qed.

Lemma digit_head c r :
  is_digit c = true ->
  drop_space (String c r) = String c r /\
  take_sign (String c r) = (false, String c r) /\
  String.prefix "Infinity" (String c r) = false.
Proof.
  intros H.
  destruct c as [[] [] [] [] [] [] [] []]; try discriminate H; repeat split.
Qed.

Lemma unsigned_head a e :
  0 < a -> exists c r, unsigned_to_string a e = String c r /\ is_digit c = true.
Proof.
  intros Ha. unfold unsigned_to_string.
  pose proof (digits_digit a) as HD.
  pose proof (digits_val_digits a ltac:(lia)) as HV.
  remember (digits a) as all eqn:Eall. clear Eall.
  destruct (strip_split all) as [j Hj].
  pose proof (strip_digit all HD) as HS.
  remember (strip_trailing_zeros all) as ds eqn:Eds. clear Eds.
  assert (ds <> []) as Hne.
  { intros ->. rewrite Hj, digits_val_app, digits_val_repeat in HV.
    change (digits_val []) with 0 in HV. lia. }
  destruct ds as [| d ds]; [congruence |].
  pose proof (Forall_inv HS) as Hd.
  cbv zeta.
  destruct (_ && _).
  { eexists _, _. split; [reflexivity | exact Hd]. }
  destruct (Z.ltb_spec 0 (Z.of_nat (length all) + e)) as [C | C]; cbn [andb].
  - destruct (_ <=? 21).
    + destruct (Z.to_nat (Z.of_nat (length all) + e)) eqn:E; [lia |].
      eexists _, _. split; [reflexivity | exact Hd].
    + destruct (_ && _).
      * eexists _, _. split; reflexivity.
      * destruct ds; eexists _, _; (split; [reflexivity | exact Hd]).
  - destruct (_ && _).
    + eexists _, _. split; reflexivity.
    + destruct ds; eexists _, _; (split; [reflexivity | exact Hd]).
Qed.

(** Printing a number and parsing the text gives the number back. *)
Lemma parseFloat_to_string x : same (parseFloat (to_string x)) x.
Proof.
  destruct x as [| [] | m e]; try reflexivity.
  cbn [to_string]. unfold finite_to_string.
  destruct (Z.eqb_spec m 0) as [-> | Hm].
  - change (parseFloat "0") with (Fin 0 0). cbn [same]. unfold to_Q.
    change (inject_Z 0) with 0%Q. rewrite !Qmult_0_l. reflexivity.
  - assert (0 < Z.abs m) as Ha by lia.
    destruct (unsigned_roundtrip (Z.abs m) e Ha) as (m' & e' & Hlit & HQ).
    destruct (unsigned_head (Z.abs m) e Ha) as (c & r & Hu & Hc).
    destruct (digit_head c r Hc) as (Hsp & Hsg & Hinf).
    destruct (Z.ltb_spec m 0) as [Hneg | Hpos].
    + unfold parseFloat.
      change (drop_space ("-" +:+ unsigned_to_string (Z.abs m) e))
        with ("-" +:+ unsigned_to_string (Z.abs m) e).
      change (take_sign ("-" +:+ unsigned_to_string (Z.abs m) e))
        with (true, unsigned_to_string (Z.abs m) e).
      cbv beta iota. rewrite Hlit. rewrite Hu, Hinf.
      cbn [same]. rewrite to_Q_opp, HQ, <- to_Q_opp.
      replace (- Z.abs m) with m by lia. reflexivity.
    + unfold parseFloat. rewrite Hu, Hsp, Hsg, Hinf, <- Hu, Hlit.
      cbn [same]. rewrite HQ. replace (Z.abs m) with m by lia. reflexivity.
Qed.

(** The order of numbers *)

Lemma leb_Fin m e m' e' :
  leb (Fin m e) (Fin m' e') = true <-> (to_Q m e <= to_Q m' e')%Q.
Proof.
  unfold leb. cbn [compare]. rewrite Qle_alt.
  destruct (to_Q m e ?= to_Q m' e')%Q; split; congruence.
Qed.

Lemma ltb_Fin m e m' e' :
  ltb (Fin m e) (Fin m' e') = true <-> (to_Q m e < to_Q m' e')%Q.
Proof.
  unfold ltb. cbn [compare]. rewrite Qlt_alt.
  destruct (to_Q m e ?= to_Q m' e')%Q; split; congruence.
Qed.

Lemma ltb_false_Fin m e m' e' :
  ltb (Fin m e) (Fin m' e') = false <-> (to_Q m' e' <= to_Q m e)%Q.
Proof.
  rewrite <- Bool.not_true_iff_false, ltb_Fin. split.
  - apply Qnot_lt_le.
  - apply Qle_not_lt.
Qed.

Lemma compare_same_l x x' y : same x x' -> compare x y = compare x' y.
Proof.
  destruct x as [| [] | m e], x' as [| [] | m' e']; cbn [same]; try easy.
  intros H. destruct y as [| [] | n f]; cbn [compare]; try reflexivity.
  now rewrite H.
Qed.

Lemma compare_same_r x y y' : same y y' -> compare x y = compare x y'.
Proof.
  destruct y as [| [] | m e], y' as [| [] | m' e']; cbn [same]; try easy.
  intros H. destruct x as [| [] | n f]; cbn [compare]; try reflexivity.
  now rewrite H.
Qed.

Lemma same_refl x : same x x.
Proof. destruct x as [| [] | m e]; cbn; try easy. Qed.

Lemma leb_same x x' y y' : same x x' -> same y y' -> leb x y = leb x' y'.
Proof.
  intros Hx Hy. unfold leb.
  now rewrite (compare_same_l x x' y Hx), (compare_same_r x' y y' Hy).
Qed.

Lemma isNaN_same x x' : same x x' -> isNaN x = isNaN x'.
Proof. destruct x as [| [] |], x' as [| [] |]; cbn; easy. Qed.

Lemma ltb_same x x' y y' : same x x' -> same y y' -> ltb x y = ltb x' y'.
Proof.
  intros Hx Hy. unfold ltb.
  now rewrite (compare_same_l x x' y Hx), (compare_same_r x' y y' Hy).
Qed.

Lemma leb_refl x : isNaN x = false -> leb x x = true.
Proof.
  destruct x as [| [] | m e]; try easy.
  intros _. apply leb_Fin, Qle_refl.
Qed.

Lemma leb_trans x y z : leb x y = true -> leb y z = true -> leb x z = true.
Proof.
  destruct x as [| [] | m e], y as [| [] | m' e'], z as [| [] | m'' e''];
    try easy.
  rewrite !leb_Fin. apply Qle_trans.
Qed.

Lemma leb_not_NaN x y : leb x y = true -> isNaN x = false /\ isNaN y = false.
Proof. destruct x as [| [] |], y as [| [] |]; easy. Qed.

(** [x > y] fails for two numbers only when [x <= y]. *)
Lemma not_gtb_leb x y :
  isNaN x = false -> isNaN y = false -> gtb x y = false -> leb x y = true.
Proof.
  unfold gtb.
  destruct x as [| [] | m e], y as [| [] | m' e']; try easy.
  intros _ _. rewrite ltb_false_Fin, leb_Fin. trivial.
Qed.

Lemma leb_not_ltb x y : leb x y = true -> ltb y x = false.
Proof.
  destruct x as [| [] | m e], y as [| [] | m' e']; try easy.
  rewrite leb_Fin, ltb_false_Fin. trivial.
Qed.

Lemma not_ltb_leb x y :
  isNaN x = false -> isNaN y = false -> ltb x y = false -> leb y x = true.
Proof. intros Hx Hy H. apply not_gtb_leb; assumption. Qed.

(** Clamping lands between the bounds. *)
Lemma clamp_between lo hi x :
  leb lo hi = true -> isNaN x = false ->
  leb lo (Math_min hi (Math_max lo x)) = true /\
  leb (Math_min hi (Math_max lo x)) hi = true.
Proof.
  intros Hle Hx. destruct (leb_not_NaN _ _ Hle) as [Hlo Hhi].
  unfold Math_max. rewrite Hlo, Hx. cbn [orb].
  destruct (ltb lo x) eqn:E1.
  - unfold Math_min. rewrite Hhi, Hx. cbn [orb].
    destruct (ltb x hi) eqn:E2.
    + split.
      * destruct lo as [| [] |], x as [| [] |]; try easy.
        apply leb_Fin, Qlt_le_weak, ltb_Fin, E1.
      * destruct hi as [| [] |], x as [| [] |]; try easy.
        apply leb_Fin, Qlt_le_weak, ltb_Fin, E2.
    + split; [exact Hle | apply leb_refl, Hhi].
  - unfold Math_min. rewrite Hhi, Hlo. cbn [orb].
    destruct (ltb lo hi) eqn:E2.
    + split; [apply leb_refl, Hlo | exact Hle].
    + split; [exact Hle | apply leb_refl, Hhi].
Qed.

End JSFacts.

(* ===================================================================== *)
(** * Properties of slider normalisation                                  *)
(* ===================================================================== *)

Module SliderFacts.
Import JS Slider JSFacts.

Lemma own_In {A} (tbl : list (string * A)) k v : own tbl k = Some v -> In (k, v) tbl.
Proof.
  induction tbl as [| [k' v'] tbl IH]; [discriminate |].
  cbn [own]. destruct (String.eqb_spec k' k) as [-> | Hne].
  - intros [= ->]. left. reflexivity.
  - intros H. right. apply IH, H.
Qed.

Lemma LIMITS_keys_canonical :
  Forall (fun kv => canonicalKey (fst kv) = fst kv) LIMITS.
Proof. repeat constructor. Qed.

Lemma LIMITS_ordered :
  Forall (fun kv => match lim_min (snd kv), lim_max (snd kv) with
                    | Some lo, Some hi => leb lo hi = true
                    | _, _ => False
                    end) LIMITS.
Proof. repeat constructor. Qed.

(** ** A slider whose key resolves *)

(** Unfold [applyLimitsFromMap] on a resolved key and go through its three
    guards. *)
Ltac through_guards Hget :=
  unfold applyLimitsFromMap; rewrite Hget;
  cbv zeta; cbn [lim_min lim_max lim_step DOMString];
  destruct (min_guard _ _), (max_guard _ _); cbn [set_min set_max input_step];
  destruct (step_guard _); reflexivity.

Section Resolved.
Variables (i : input) (lo hi st : num).
Hypothesis Hres : resolves i lo hi st.

Let lim : limits := mkLimits (Some lo) (Some hi) (Some st).

Lemma resolves_get : LIMITS_get (canonicalKey (featRaw i)) = Some lim.
Proof. unfold LIMITS_get. rewrite Hres. reflexivity. Qed.

Lemma resolves_ordered : leb lo hi = true.
Proof.
  exact (proj1 (List.Forall_forall _ _) LIMITS_ordered _ (own_In _ _ _ Hres)).
Qed.

(** The fields of the slider after [applyLimitsFromMap]. *)
Lemma applyLimits_min :
  input_min (applyLimitsFromMap i)
  = if min_guard (parseFloat (input_min i)) lim then to_string lo else input_min i.
Proof. through_guards resolves_get. Qed.

Lemma applyLimits_max :
  input_max (applyLimitsFromMap i)
  = if max_guard (parseFloat (input_max i)) lim then to_string hi else input_max i.
Proof. through_guards resolves_get. Qed.

Lemma applyLimits_step :
  input_step (applyLimitsFromMap i)
  = if step_guard (input_step i) then to_string (step_or_one (Some st)) else input_step i.
Proof. through_guards resolves_get. Qed.

Lemma applyLimits_value :
  input_value (applyLimitsFromMap i)
  = DOMString (clamp (VNum (parseFloat (input_value i))) (Some lo) (Some hi)).
Proof. through_guards resolves_get. Qed.

End Resolved.

(** The scenarios of the specification. *)
Example trestbps_500 :
  applyLimitsFromMap (mkInput (Some "trestbps") "" "" "" "" "" "500" None)
  = mkInput (Some "trestbps") "" "" "80" "200" "1" "200" None.
Proof. reflexivity. Qed.

Example thalach_9999 :
  applyLimitsFromMap (mkInput (Some "thalach") "" "" "" "9999" "" "10" None)
  = mkInput (Some "thalach") "" "" "60" "220" "1" "60" None.
Proof. reflexivity. Qed.

Example label_resolves : canonicalKey "Resting BP (mm/Hg)" = "restingbps".
Proof. reflexivity. Qed.

(** C9. Canonical-key resolution is idempotent on the limits table: a key
    that is a key of [LIMITS] is returned unchanged by [canonicalKey]. *)
Theorem canonicalKey_idempotent k lim :
  own LIMITS k = Some lim -> canonicalKey k = k.
Proof.
  intros H. apply own_In in H.
  exact (proj1 (List.Forall_forall _ _) LIMITS_keys_canonical _ H).
Qed.

Lemma canonicalKey_idempotent_witness :
  own LIMITS "bmi" = Some (entry 10 60 tenth) /\ canonicalKey "bmi" = "bmi".
Proof.
  split; [reflexivity |].
  apply (canonicalKey_idempotent "bmi" (entry 10 60 tenth)). reflexivity.
Defined.

(** C1, as the code has it. For a slider whose feature key resolves to a
    limits entry, [applyLimitsFromMap] replaces the declared minimum by the
    canonical one exactly when the declared minimum is not a number, is
    below -50, or is above (tighter than) the canonical minimum, and
    replaces the declared maximum exactly when it is not a number, is above
    500, or is below (tighter than) the canonical maximum.  A declared
    minimum between -50 and the canonical minimum, and a declared maximum
    between the canonical maximum and 500, stay as they are. *)
Theorem applyLimits_bound_rule i lo hi st :
  resolves i lo hi st ->
  let curMin := parseFloat (input_min i) in
  let curMax := parseFloat (input_max i) in
  let out := applyLimitsFromMap i in
  input_min out
    = (if isNaN curMin || ltb curMin (of_Z (-50)) || ltb lo curMin
       then to_string lo else input_min i) /\
  input_max out
    = (if isNaN curMax || ltb (of_Z 500) curMax || ltb curMax hi
       then to_string hi else input_max i) /\
  (leb (of_Z (-50)) curMin = true -> leb curMin lo = true ->
   input_min out = input_min i) /\
  (leb hi curMax = true -> leb curMax (of_Z 500) = true ->
   input_max out = input_max i).
Proof.
  intros H curMin curMax out. subst out.
  rewrite (applyLimits_min i lo hi st H), (applyLimits_max i lo hi st H).
  unfold min_guard, max_guard, gtb. cbn [lim_min lim_max ToNumber].
  fold curMin curMax.
  repeat split.
  - intros H1 H2. destruct (leb_not_NaN _ _ H2) as [Hn _]. rewrite Hn.
    replace (ltb curMin (of_Z (-50))) with false.
    + replace (ltb lo curMin) with false; [reflexivity |].
      symmetry. apply leb_not_ltb, H2.
    + symmetry. apply leb_not_ltb, H1.
  - intros H1 H2. destruct (leb_not_NaN _ _ H2) as [Hn _]. rewrite Hn.
    replace (ltb (of_Z 500) curMax) with false.
    + replace (ltb curMax hi) with false; [reflexivity |].
      symmetry. apply leb_not_ltb, H1.
    + symmetry. apply leb_not_ltb, H2.
Qed.

Lemma applyLimits_bound_rule_witness :
  resolves looser_age (of_Z 18) (of_Z 100) one /\
  input_min (applyLimitsFromMap looser_age) = "0" /\
  input_max (applyLimitsFromMap looser_age) = "200".
Proof.
  assert (resolves looser_age (of_Z 18) (of_Z 100) one) as H by reflexivity.
  split; [exact H |].
  destruct (applyLimits_bound_rule looser_age _ _ _ H) as (_ & _ & Hmin & Hmax).
  split; [apply Hmin | apply Hmax]; reflexivity.
Defined.

(** C1 as stated fails: a declared range tighter than the canonical one and
    inside (-50, 500) is overwritten, and a looser one is kept. *)
Lemma tighter_bounds_are_overwritten :
  resolves tighter_age (of_Z 18) (of_Z 100) one /\
  ltb (of_Z 18) (parseFloat (input_min tighter_age)) = true /\
  ltb (parseFloat (input_max tighter_age)) (of_Z 100) = true /\
  ltb (of_Z (-50)) (parseFloat (input_min tighter_age)) = true /\
  ltb (parseFloat (input_max tighter_age)) (of_Z 500) = true /\
  input_min (applyLimitsFromMap tighter_age) <> input_min tighter_age /\
  input_max (applyLimitsFromMap tighter_age) <> input_max tighter_age /\
  resolves looser_age (of_Z 18) (of_Z 100) one /\
  ltb (parseFloat (input_min looser_age)) (of_Z 18) = true /\
  input_min (applyLimitsFromMap looser_age) = input_min looser_age.
Proof. repeat split; discriminate. Qed.

Lemma LIMITS_steps_positive :
  Forall (fun kv => match lim_step (snd kv) with
                    | Some st => ltb (of_Z 0) (step_or_one (Some st)) = true
                    | None => False
                    end) LIMITS.
Proof. repeat constructor. Qed.

(** X10. After [applyLimitsFromMap] the value of a slider whose key
    resolves lies between the declared bounds, and a value that was not a
    number has become the canonical minimum. *)
Lemma applyLimits_value_between i lo hi st :
  resolves i lo hi st ->
  let out := applyLimitsFromMap i in
  leb (parseFloat (input_min out)) (parseFloat (input_value out)) = true /\
  leb (parseFloat (input_value out)) (parseFloat (input_max out)) = true /\
  (isNaN (parseFloat (input_value i)) = true -> input_value out = to_string lo).
Proof.
  intros H out. subst out.
  pose proof (resolves_ordered _ _ _ _ H) as Hle.
  destruct (leb_not_NaN _ _ Hle) as [Hlo Hhi].
  rewrite (applyLimits_min i lo hi st H), (applyLimits_max i lo hi st H),
    (applyLimits_value i lo hi st H).
  unfold clamp. set (x := parseFloat (input_value i)).
  set (c := if isNaN x then lo else Math_min hi (Math_max lo x)).
  replace (DOMString (if isNaN x then Some lo else Some (Math_min (ToNumber (Some hi))
                                                   (Math_max (ToNumber (Some lo)) x))))
    with (to_string c) by (subst c; destruct (isNaN x); reflexivity).
  assert (leb lo c = true /\ leb c hi = true) as [Hc1 Hc2].
  { subst c. destruct (isNaN x) eqn:Ex.
    - split; [apply leb_refl, Hlo | exact Hle].
    - apply clamp_between; assumption. }
  pose proof (parseFloat_to_string c) as Sc.
  repeat split.
  - destruct (min_guard _ _) eqn:G.
    + rewrite (leb_same _ _ _ _ (parseFloat_to_string lo) Sc). exact Hc1.
    + rewrite (leb_same _ _ _ _ (same_refl _) Sc).
      unfold min_guard in G. cbn [lim_min ToNumber] in G.
      apply Bool.orb_false_iff in G as [G G3].
      apply Bool.orb_false_iff in G as [G1 G2].
      apply leb_trans with lo; [| exact Hc1].
      apply not_gtb_leb; assumption.
  - destruct (max_guard _ _) eqn:G.
    + rewrite (leb_same _ _ _ _ Sc (parseFloat_to_string hi)). exact Hc2.
    + rewrite (leb_same _ _ _ _ Sc (same_refl _)).
      unfold max_guard in G. cbn [lim_max ToNumber] in G.
      apply Bool.orb_false_iff in G as [G G3].
      apply Bool.orb_false_iff in G as [G1 G2].
      apply leb_trans with hi; [exact Hc2 |].
      apply not_ltb_leb; assumption.
  - intros Ex. subst c. fold x in Ex. rewrite Ex. reflexivity.
Qed.

(** X11. The step after [applyLimitsFromMap] is a positive number whenever the
    declared step was empty, "any" or a number. *)
Lemma applyLimits_step_positive i lo hi st :
  resolves i lo hi st ->
  step_guard (input_step i) = true \/ isNaN (parseFloat (input_step i)) = false ->
  ltb (of_Z 0) (parseFloat (input_step (applyLimitsFromMap i))) = true.
Proof.
  intros H Hs. rewrite (applyLimits_step i lo hi st H).
  destruct (step_guard (input_step i)) eqn:G.
  - rewrite (ltb_same _ _ _ _ (same_refl _) (parseFloat_to_string _)).
    pose proof (own_In _ _ _ H) as Hin.
    exact (proj1 (List.Forall_forall _ _) LIMITS_steps_positive _ Hin).
  - destruct Hs as [Hs | Hs]; [discriminate |].
    unfold step_guard in G.
    apply Bool.orb_false_iff in G as [_ G].
    destruct (parseFloat (input_step i)) as [| [] | m e]; try easy.
    unfold leb in G. unfold ltb. cbn [compare of_Z] in *.
    rewrite <- Qcompare_antisym.
    destruct (to_Q m e ?= to_Q 0 0)%Q; easy.
Qed.

(** C6 fails on a step that is neither empty, "any" nor a number: it is
    kept, and is not a positive number. *)
Theorem nonnumeric_step_is_kept :
  resolves odd_step_age (of_Z 18) (of_Z 100) one /\
  input_step (applyLimitsFromMap odd_step_age) = "abc" /\
  parseFloat (input_step (applyLimitsFromMap odd_step_age)) = NaN /\
  ltb (of_Z 0) (parseFloat (input_step (applyLimitsFromMap odd_step_age))) = false.
Proof. repeat split. Qed.

End SliderFacts.

(* ===================================================================== *)
(** * Properties of form navigation and validation                        *)
(* ===================================================================== *)

Module NavigatorFacts.
Import Navigator.

Lemma unmark_set b f : set_invalid false (set_invalid b f) = set_invalid false f.
Proof. reflexivity. Qed.

Lemma unmark_insert (l : list field) (el : nat) f b :
  l !! el = Some f ->
  set_invalid false <$> <[el := set_invalid b f]> l = set_invalid false <$> l.
Proof.
  intros H. rewrite list_fmap_insert, unmark_set.
  apply list_insert_id. rewrite list_lookup_fmap, H. reflexivity.
Qed.

Lemma skeleton_clearError el st : skeleton (clearError el st) = skeleton st.
Proof.
  unfold clearError. destruct (fields st !! el) as [f |] eqn:E; [| reflexivity].
  assert (skeleton (with_fields (<[el := set_invalid false f]> (fields st)) st)
          = skeleton st) as H0.
  { unfold skeleton. cbn. now rewrite (unmark_insert _ _ _ _ E). }
  destruct (field_small f) as [j |]; [| exact H0].
  destruct (smalls _ !! j) as [sm |]; [| exact H0].
  destruct (truthy (originalText sm)); exact H0.
Qed.

Lemma skeleton_showError el msg st : skeleton (showError el msg st) = skeleton st.
Proof.
  unfold showError. destruct (fields st !! el) as [f |] eqn:E; [| reflexivity].
  assert (skeleton (with_fields (<[el := set_invalid true f]> (fields st)) st)
          = skeleton st) as H0.
  { unfold skeleton. cbn. now rewrite (unmark_insert _ _ _ _ E). }
  destruct (field_small f) as [j |]; [| exact H0].
  destruct (smalls _ !! j) as [sm |]; exact H0.
Qed.

Lemma skeleton_validateInput el st : skeleton (validateInput el st).2 = skeleton st.
Proof.
  unfold validateInput.
  destruct (fields (clearError el st) !! el) as [f |];
    [| apply skeleton_clearError].
  destruct (field_disabled f); [apply skeleton_clearError |].
  destruct (negb _); cbn [snd].
  - rewrite skeleton_showError. apply skeleton_clearError.
  - apply skeleton_clearError.
Qed.

(** What the skeleton determines. *)
Lemma skeleton_panels st st' : skeleton st' = skeleton st -> panels st' = panels st.
Proof. unfold skeleton. congruence. Qed.

Lemma skeleton_lookup st st' el :
  skeleton st' = skeleton st ->
  set_invalid false <$> fields st' !! el = set_invalid false <$> fields st !! el.
Proof.
  unfold skeleton. intros H. rewrite <- !list_lookup_fmap. congruence.
Qed.

Lemma skeleton_field_ok st st' el :
  skeleton st' = skeleton st -> field_ok st' el = field_ok st el.
Proof.
  intros H. apply (skeleton_lookup _ _ el) in H. unfold field_ok.
  destruct (fields st' !! el) as [f' |], (fields st !! el) as [f |];
    cbn in H; try congruence.
  injection H as H. destruct f, f'. cbn in *. congruence.
Qed.

(** [validateInput] returns the verdict [field_ok]. *)
Lemma validateInput_fst el st : (validateInput el st).1 = field_ok st el.
Proof.
  rewrite <- (skeleton_field_ok st (clearError el st) el (skeleton_clearError el st)).
  unfold validateInput, field_ok.
  destruct (fields (clearError el st) !! el) as [f |]; [| reflexivity].
  destruct (field_disabled f); [reflexivity |].
  destruct (valid (validity f)); reflexivity.
Qed.

Lemma validateInput_fields el st :
  fields (validateInput el st).2
  = match fields st !! el with
    | Some f => <[el := set_invalid (negb (field_ok st el)) f]> (fields st)
    | None => fields st
    end.
Proof.
  unfold validateInput, clearError, field_ok.
  destruct (fields st !! el) as [f |] eqn:E; [| rewrite E; reflexivity].
  pose proof (lookup_lt_Some _ _ _ E) as Hlt.
  set (st1 := with_fields (<[el := set_invalid false f]> (fields st)) st).
  assert (forall st2, fields st2 = fields st1 ->
            fields (match fields st2 !! el with
                    | Some f0 =>
                        if field_disabled f0 then (true, st2)
                        else if negb (valid (validity f0))
                             then (false, showError el (error_text f0) st2)
                             else (true, st2)
                    | None => (true, st2)
                    end).2
            = <[el := set_invalid (negb (field_disabled f || valid (validity f))) f]>
                (fields st)) as Hgen.
  { intros st2 E2. subst st1. cbn [fields with_fields] in E2. rewrite E2.
    rewrite list_lookup_insert_eq by exact Hlt.
    cbn [field_disabled set_invalid validity].
    destruct (field_disabled f); [cbn [orb negb snd]; exact E2 |].
    destruct (valid (validity f)); cbn [negb orb snd]; [exact E2 |].
    unfold showError. rewrite E2.
    rewrite list_lookup_insert_eq by exact Hlt.
    assert (forall st3, fields st3 = <[el := set_invalid true (set_invalid false f)]>
                                       (<[el := set_invalid false f]> (fields st)) ->
              fields st3 = <[el := set_invalid true f]> (fields st)) as Hfin.
    { intros st3 ->. rewrite list_insert_insert_eq. reflexivity. }
    destruct (field_small _) as [j |]; [| apply Hfin; reflexivity].
    destruct (smalls _ !! j); apply Hfin; reflexivity. }
  destruct (field_small f) as [j |]; [| apply Hgen; reflexivity].
  destruct (smalls st1 !! j) as [sm |]; [| apply Hgen; reflexivity].
  destruct (truthy (originalText sm)); apply Hgen; reflexivity.
Qed.

(** ** [every] over [validateInput] *)

Lemma skeleton_validate_all l : forall s, skeleton (validate_all l s) = skeleton s.
Proof.
  induction l as [| el l IH]; intros s; [reflexivity |].
  cbn. unfold validate_all in IH. rewrite IH. apply skeleton_validateInput.
Qed.

Lemma every_validateInput st l : forall s,
  skeleton s = skeleton st ->
  every validateInput l s
  = (forallb (field_ok st) l, validate_all (checked st l) s).
Proof.
  induction l as [| el l IH]; intros s Hs; [reflexivity |].
  cbn [every forallb checked].
  destruct (validateInput el s) as [ok s'] eqn:E.
  assert (ok = field_ok st el) as ->.
  { rewrite <- (skeleton_field_ok st s el Hs), <- validateInput_fst, E. reflexivity. }
  assert (s' = (validateInput el s).2) as -> by (rewrite E; reflexivity).
  destruct (field_ok st el); cbn [andb].
  - rewrite IH; [reflexivity |].
    rewrite skeleton_validateInput. exact Hs.
  - reflexivity.
Qed.

(** ** [showPanelById] *)

Lemma focus_frame i st :
  panels (focus i st) = panels st /\ tabs (focus i st) = tabs st /\
  fields (focus i st) = fields st /\ smalls (focus i st) = smalls st.
Proof.
  unfold focus. destruct (fields st !! i) as [f |]; [| easy].
  destruct (field_disabled f); easy.
Qed.

Lemma showPanelById_frame t st :
  panels (showPanelById t st) = map (show_panel t) (panels st) /\
  tabs (showPanelById t st) = map (show_tab t) (tabs st) /\
  fields (showPanelById t st) = fields st /\
  smalls (showPanelById t st) = smalls st.
Proof.
  unfold showPanelById.
  destruct (String.eqb _ ""); [easy |].
  destruct (getElementById _ _) as [[i |] |]; try easy.
  destruct (focus_frame i
              (with_panels_tabs (map (show_panel t) (panels st))
                 (map (show_tab t) (tabs st)) st)) as (-> & -> & -> & ->).
  easy.
Qed.

Lemma active_count_show t st :
  active_count (showPanelById t st) = carriers t st.
Proof.
  unfold active_count, carriers.
  rewrite (proj1 (showPanelById_frame t st)).
  induction (panels st) as [| p ps IH]; [reflexivity |].
  cbn [map List.filter show_panel panel_active].
  destruct (bool_decide _); cbn [length]; congruence.
Qed.

Lemma filter_none {A} (f : A -> bool) (l : list A) :
  length (List.filter f l) = 0%nat -> Forall (fun x => f x = false) l.
Proof.
  induction l as [| x l IH]; [constructor |].
  cbn [List.filter]. destruct (f x) eqn:E; [discriminate |].
  intros H. constructor; auto.
Qed.

(** C2, as the code has it. When no panel carries the target identifier,
    [showPanelById] deactivates and hides every panel, marks as active
    exactly the tabs whose target is that identifier, leaves controls and
    error lines alone, and does not move the focus if no element of the
    page carries the identifier. *)
Theorem showPanel_unknown_target t st :
  carriers t st = 0%nat ->
  let st' := showPanelById t st in
  Forall (fun p => panel_active p = false /\ aria_hidden p = Some "true") (panels st') /\
  map panel_id (panels st') = map panel_id (panels st) /\
  tabs st' = map (show_tab t) (tabs st) /\
  fields st' = fields st /\
  smalls st' = smalls st /\
  (getElementById (ids st) (default "undefined" t) = None -> focused st' = focused st).
Proof.
  intros H st'. subst st'.
  destruct (showPanelById_frame t st) as (Hp & Ht & Hf & Hs).
  rewrite Hp, Ht, Hf, Hs. repeat split.
  - apply filter_none in H. clear -H.
    induction H as [| p ps Hx _ IH]; [constructor |].
    cbn [map]. constructor; [| exact IH].
    unfold show_panel. rewrite Hx. split; reflexivity.
  - clear. induction (panels st) as [| p ps IH]; [reflexivity |].
    cbn [map]. rewrite IH. reflexivity.
  - intros Hid. unfold showPanelById.
    destruct (String.eqb _ ""); [reflexivity |].
    cbn [ids with_panels_tabs]. rewrite Hid. reflexivity.
Qed.

Lemma showPanel_unknown_target_witness :
  carriers (Some "nope") wizard = 0%nat /\
  Forall (fun p => panel_active p = false /\ aria_hidden p = Some "true")
         (panels (showPanelById (Some "nope") wizard)).
Proof.
  split; [reflexivity |].
  apply (showPanel_unknown_target (Some "nope") wizard). reflexivity.
Defined.

(** C2 as stated fails: an identifier that no panel carries deactivates the
    panel that was showing and its tab, and an identifier carried by
    another element moves the focus. *)
Lemma unknown_target_is_not_a_noop :
  carriers (Some "nope") wizard = 0%nat /\
  panels (showPanelById (Some "nope") wizard) <> panels wizard /\
  tabs (showPanelById (Some "nope") wizard) <> tabs wizard /\
  carriers (Some "predictForm") wizard = 0%nat /\
  focused (showPanelById (Some "predictForm") wizard) <> focused wizard.
Proof. repeat split; discriminate. Qed.

(** ** Which operations touch the panels *)

Lemma skeleton_field_panel st st' el :
  skeleton st' = skeleton st ->
  field_panel <$> fields st' !! el = field_panel <$> fields st !! el.
Proof.
  intros H. apply (skeleton_lookup _ _ el) in H.
  destruct (fields st' !! el) as [f' |], (fields st !! el) as [f |];
    cbn in H |- *; try congruence.
  injection H as H. destruct f, f'. cbn in *. congruence.
Qed.

Lemma submit_loop_panels st l : forall s,
  skeleton s = skeleton st ->
  panels (submit_loop l s).2
  = after_switch
      (match first_rejected st l with
       | Some el =>
           match fields st !! el with
           | Some f =>
               match field_panel f with
               | Some p => (fun pn => Some (panel_id pn)) <$> panels st !! p
               | None => None
               end
           | None => None
           end
       | None => None
       end) (panels st).
Proof.
  induction l as [| el l IH]; intros s Hs.
  - cbn. apply skeleton_panels, Hs.
  - cbn [submit_loop first_rejected List.find].
    pose proof (validateInput_fst el s) as Hok.
    pose proof (skeleton_validateInput el s) as Hsk.
    destruct (validateInput el s) as [ok s1]. cbn [fst snd] in Hok, Hsk.
    rewrite Hs in Hsk.
    rewrite (skeleton_field_ok st s el Hs) in Hok. subst ok.
    destruct (field_ok st el) eqn:Eok; cbn [negb].
    + apply IH, Hsk.
    + cbn [snd].
      pose proof (skeleton_field_panel st s1 el Hsk) as Hfp.
      pose proof (skeleton_panels _ _ Hsk) as Hps.
      destruct (fields s1 !! el) as [f1 |], (fields st !! el) as [f |];
        cbn in Hfp; try congruence; [| exact Hps].
      injection Hfp as ->.
      destruct (field_panel f) as [p |]; [| exact Hps].
      rewrite Hps. destruct (panels st !! p) as [pn |]; [| exact Hps].
      cbn [fmap option_fmap option_map after_switch].
      rewrite (proj1 (showPanelById_frame _ s1)), Hps. reflexivity.
Qed.

Lemma smoker_change_panels v st : panels (smoker_change v st) = panels st.
Proof.
  unfold smoker_change.
  destruct (smokerStatusEl st) as [sm |]; [| reflexivity].
  destruct (cigsPerDayEl st) as [c |]; [| reflexivity].
  destruct (fields st !! c) as [f |]; [| reflexivity].
  destruct (match fields st !! sm with
            | Some f0 => String.eqb (field_value f0) "1"
            | None => false
            end); [reflexivity |].
  rewrite (skeleton_panels _ _ (skeleton_clearError c _)). reflexivity.
Qed.

Lemma run_panels o st :
  panels (run o st) = after_switch (switch_target o st) (panels st).
Proof.
  destruct o as [t | [t |] | [b |] | | v | el | key el]; cbn [run switch_target after_switch];
    try reflexivity.
  - apply showPanelById_frame.
  - unfold tab_click. destruct (tabs st !! t) as [tb |]; cbn; [| reflexivity].
    apply showPanelById_frame.
  - unfold next_click, validatePanel. destruct (next_panel b) as [p |]; [| reflexivity].
    destruct (panels st !! p) as [pn |].
    + rewrite (every_validateInput st _ st eq_refl).
      destruct (forallb _ _); cbn [after_switch].
      * rewrite (proj1 (showPanelById_frame _ _)).
        now rewrite (skeleton_panels _ _ (skeleton_validate_all _ st)).
      * apply (skeleton_panels _ _ (skeleton_validate_all _ st)).
    + apply showPanelById_frame.
  - unfold submit. apply submit_loop_panels. reflexivity.
  - apply smoker_change_panels.
  - unfold input_event. destruct (fields st !! el) as [f |]; [| reflexivity].
    destruct (field_kind f); try reflexivity;
      apply (skeleton_panels _ _ (skeleton_validateInput el st)).
Qed.

Lemma active_count_after_switch t st st' :
  panels st' = after_switch (Some t) (panels st) -> active_count st' = carriers t st.
Proof.
  intros H. rewrite <- active_count_show. unfold active_count.
  rewrite H, (proj1 (showPanelById_frame t st)). reflexivity.
Qed.

(** C3, as the code has it. The active marks of the panels change only
    when an operation reaches [showPanelById]; from a page with exactly one
    active panel, an operation leaves exactly one panel active provided the
    identifier it switches to, if it switches, is carried by exactly one
    panel. *)
Theorem navigation_keeps_one_active o st :
  active_count st = 1%nat ->
  (forall t, switch_target o st = Some t -> carriers t st = 1%nat) ->
  active_count (run o st) = 1%nat /\
  panels (run o st) = after_switch (switch_target o st) (panels st).
Proof.
  intros H1 Ht. pose proof (run_panels o st) as Hp. split; [| exact Hp].
  destruct (switch_target o st) as [t |].
  - rewrite (active_count_after_switch t st _ Hp). apply Ht. reflexivity.
  - unfold active_count. cbn [after_switch] in Hp. rewrite Hp. exact H1.
Qed.

Lemma navigation_keeps_one_active_witness :
  active_count wizard = 1%nat /\
  active_count (run (TabClick (Some 1%nat)) wizard) = 1%nat.
Proof.
  split; [reflexivity |].
  apply (navigation_keeps_one_active (TabClick (Some 1%nat)) wizard).
  - reflexivity.
  - intros t [= <-]. reflexivity.
Defined.

(** C3 as stated fails: showing an identifier that no panel carries leaves
    no panel active. *)
Lemma unknown_target_leaves_none_active :
  active_count wizard = 1%nat /\
  active_count (run (ShowPanel (Some "nope")) wizard) = 0%nat.
Proof. split; reflexivity. Qed.

(** ** Disabled controls *)

Lemma set_invalid_id f : invalid f = false -> set_invalid false f = f.
Proof. destruct f. cbn. intros ->. reflexivity. Qed.

Lemma clearError_smalls el st f :
  fields st !! el = Some f ->
  smalls (clearError el st)
  = match field_small f with
    | Some j => match smalls st !! j with
                | Some sm => <[j := restored sm]> (smalls st)
                | None => smalls st
                end
    | None => smalls st
    end.
Proof.
  intros E. unfold clearError. rewrite E.
  destruct (field_small f) as [j |]; [| reflexivity].
  cbn [smalls with_fields].
  destruct (smalls st !! j) as [sm |] eqn:Ej; [| reflexivity].
  unfold restored. destruct (truthy (originalText sm)); cbn [smalls with_smalls with_fields].
  - reflexivity.
  - symmetry. apply list_insert_id, Ej.
Qed.

Lemma validateInput_disabled_eq el st f :
  fields st !! el = Some f -> field_disabled f = true ->
  validateInput el st = (true, clearError el st).
Proof.
  intros E Hd. unfold validateInput.
  pose proof (skeleton_lookup st (clearError el st) el (skeleton_clearError el st)) as H.
  rewrite E in H.
  destruct (fields (clearError el st) !! el) as [f' |]; [| reflexivity].
  cbn in H. injection H as H.
  assert (field_disabled f' = field_disabled f) as ->
    by (destruct f, f'; cbn in *; congruence).
  rewrite Hd. reflexivity.
Qed.

(** C4, as the code has it. [validateInput] on a disabled control returns
    [true] and shows no error; what it does is clear a previous error: the
    [invalid] mark of the control is removed and its error line, if it holds
    a saved text, goes back to that text.  Nothing else on the page
    changes, and a control without mark whose line holds no saved text is
    left exactly as it was. *)
Theorem validateInput_disabled el st f :
  fields st !! el = Some f -> field_disabled f = true ->
  let st' := (validateInput el st).2 in
  (validateInput el st).1 = true /\
  fields st' = <[el := set_invalid false f]> (fields st) /\
  (forall j, field_small f = Some j ->
     smalls st' !! j = restored <$> smalls st !! j) /\
  (forall j, field_small f <> Some j -> smalls st' !! j = smalls st !! j) /\
  skeleton st' = skeleton st /\
  (invalid f = false ->
   (forall j sm, field_small f = Some j -> smalls st !! j = Some sm ->
      truthy (originalText sm) = false) ->
   st' = st).
Proof.
  intros E Hd st'. subst st'.
  rewrite (validateInput_disabled_eq el st f E Hd). cbn [fst snd].
  pose proof (clearError_smalls el st f E) as Hsm.
  assert (fields (clearError el st) = <[el := set_invalid false f]> (fields st)) as Hf.
  { unfold clearError. rewrite E.
    destruct (field_small f) as [j |]; [| reflexivity].
    cbn [smalls with_fields].
    destruct (smalls st !! j) as [sm |]; [| reflexivity].
    destruct (truthy (originalText sm)); reflexivity. }
  repeat split.
  - exact Hf.
  - intros j Hj. rewrite Hsm, Hj.
    destruct (smalls st !! j) as [sm |] eqn:Ej; cbn.
    + apply list_lookup_insert_eq, (lookup_lt_Some _ _ _ Ej).
    + exact Ej.
  - intros j Hj. rewrite Hsm.
    destruct (field_small f) as [j' |]; [| reflexivity].
    destruct (smalls st !! j') as [sm |]; [| reflexivity].
    apply list_lookup_insert_ne. congruence.
  - apply skeleton_clearError.
  - intros Hinv Hline. unfold clearError. rewrite E.
    assert (with_fields (<[el := set_invalid false f]> (fields st)) st = st) as Hid.
    { rewrite (set_invalid_id f Hinv), (list_insert_id _ _ _ E).
      destruct st. reflexivity. }
    rewrite Hid.
    destruct (field_small f) as [j |] eqn:Ej; [| reflexivity].
    destruct (smalls st !! j) as [sm |] eqn:Es; [| reflexivity].
    rewrite (Hline j sm eq_refl Es). reflexivity.
Qed.

Lemma validateInput_disabled_witness :
  fields stale !! 0%nat
    = Some (mkField InputNumber true false "" "0" "60" missing true (Some 0%nat) (Some 0%nat)) /\
  (validateInput 0%nat stale).1 = true.
Proof.
  split; [reflexivity |].
  apply (validateInput_disabled 0%nat stale _ eq_refl eq_refl).
Defined.

(** C4 as stated fails: on a disabled control that still shows an error,
    the mark and the error line are changed. *)
Lemma disabled_field_is_cleared :
  (field_disabled <$> fields stale !! 0%nat) = Some true /\
  (validateInput 0%nat stale).1 = true /\
  (invalid <$> fields stale !! 0%nat) = Some true /\
  (invalid <$> fields (validateInput 0%nat stale).2 !! 0%nat) = Some false /\
  smalls (validateInput 0%nat stale).2 <> smalls stale.
Proof. repeat split; discriminate. Qed.

(** ** [validatePanel] *)

Lemma validate_all_fields st c : forall s el,
  skeleton s = skeleton st ->
  fields (validate_all c s) !! el
  = (fun f => if bool_decide (el ∈ c)
              then set_invalid (negb (field_ok st el)) f else f) <$> fields s !! el.
Proof.
  induction c as [| a c IH]; intros s el Hs.
  - cbn. destruct (fields s !! el); reflexivity.
  - change (validate_all (a :: c) s) with (validate_all c (validateInput a s).2).
    rewrite IH by (rewrite skeleton_validateInput; exact Hs).
    rewrite validateInput_fields, (skeleton_field_ok st s a Hs).
    destruct (fields s !! a) as [fa |] eqn:Ea.
    + destruct (decide (el = a)) as [-> | Hne].
      * rewrite list_lookup_insert_eq by exact (lookup_lt_Some _ _ _ Ea).
        rewrite Ea. cbn [fmap option_fmap option_map].
        rewrite (bool_decide_eq_true_2 (a ∈ a :: c)) by left.
        destruct (bool_decide (a ∈ c)); reflexivity.
      * rewrite list_lookup_insert_ne by congruence.
        destruct (fields s !! el); [| reflexivity]. cbn. f_equal.
        destruct (decide (el ∈ c)) as [Hin | Hnin].
        -- rewrite !bool_decide_eq_true_2; [reflexivity | now right | exact Hin].
        -- rewrite !bool_decide_eq_false_2; [reflexivity | | exact Hnin].
           intros [? | ?]%elem_of_cons; contradiction.
    + destruct (decide (el = a)) as [-> | Hne].
      * rewrite Ea. reflexivity.
      * destruct (fields s !! el); [| reflexivity]. cbn. f_equal.
        destruct (decide (el ∈ c)) as [Hin | Hnin].
        -- rewrite !bool_decide_eq_true_2; [reflexivity | now right | exact Hin].
        -- rewrite !bool_decide_eq_false_2; [reflexivity | | exact Hnin].
           intros [? | ?]%elem_of_cons; contradiction.
Qed.

Lemma checked_subset st l el : el ∈ checked st l -> In el l.
Proof.
  induction l as [| a l IH]; cbn [checked]; [intros H; inversion H |].
  destruct (field_ok st a).
  - intros [-> | H]%elem_of_cons; [now left | right; auto].
  - intros ->%list_elem_of_singleton. now left.
Qed.

(** C5, as the code has it. [validatePanel] returns [true] exactly when
    every enabled control of the panel is valid.  It validates the enabled
    controls in document order and stops after the first invalid one: each
    control it got to carries the [invalid] mark exactly if it is invalid,
    and every other control is as it was. *)
Theorem validatePanel_spec p st pn :
  panels st !! p = Some pn ->
  let l := enabled_fields st (panel_fields pn) in
  let st' := (validatePanel p st).2 in
  ((validatePanel p st).1 = true <->
   forall el f, In el (panel_fields pn) -> fields st !! el = Some f ->
                field_disabled f = false -> valid (validity f) = true) /\
  st' = validate_all (checked st l) st /\
  (forall el f, fields st !! el = Some f ->
     fields st' !! el
     = Some (if bool_decide (el ∈ checked st l)
             then set_invalid (negb (valid (validity f))) f else f)).
Proof.
  intros Hp l st'. subst st'. unfold validatePanel. rewrite Hp.
  fold l. rewrite (every_validateInput st l st eq_refl). cbn [fst snd].
  repeat split.
  - intros H el f Hin Ef Hd.
    rewrite forallb_forall in H.
    assert (In el l) as Hl.
    { apply filter_In. split; [exact Hin |]. unfold is_enabled. now rewrite Ef, Hd. }
    specialize (H el Hl). unfold field_ok in H. now rewrite Ef, Hd in H.
  - intros H. apply forallb_forall. intros el Hl.
    apply filter_In in Hl as [Hin Hen]. unfold is_enabled in Hen. unfold field_ok.
    destruct (fields st !! el) as [f |] eqn:Ef; [| reflexivity].
    destruct (field_disabled f) eqn:Hd; [discriminate |].
    apply (H el f Hin Ef Hd).
  - intros el f Ef. rewrite (validate_all_fields st _ st el eq_refl), Ef.
    cbn [fmap option_fmap option_map]. f_equal.
    destruct (bool_decide (el ∈ checked st l)) eqn:Hc; [| reflexivity].
    apply bool_decide_eq_true_1, checked_subset, filter_In in Hc as [_ Hen].
    unfold is_enabled in Hen. rewrite Ef in Hen. unfold field_ok. rewrite Ef.
    destruct (field_disabled f); [discriminate | reflexivity].
Qed.

Lemma validatePanel_spec_witness :
  panels two_empty !! 0%nat
    = Some (mkPanel "step1" true (Some "false") [0%nat; 1%nat]) /\
  (validatePanel 0%nat two_empty).2 = validate_all [0%nat] two_empty.
Proof.
  split; [reflexivity |].
  apply (validatePanel_spec 0%nat two_empty _ eq_refl).
Defined.

(** C5 as stated fails: of two enabled controls that are both invalid the
    second one is never reached, so its error is not rendered. *)
Lemma second_invalid_field_is_not_rendered :
  (validatePanel 0%nat two_empty).1 = false /\
  (field_disabled <$> fields two_empty !! 1%nat) = Some false /\
  (valid ∘ validity <$> fields two_empty !! 1%nat) = Some false /\
  fields (validatePanel 0%nat two_empty).2 !! 1%nat = fields two_empty !! 1%nat /\
  smalls (validatePanel 0%nat two_empty).2 !! 1%nat = smalls two_empty !! 1%nat /\
  (invalid <$> fields (validatePanel 0%nat two_empty).2 !! 1%nat) = Some false /\
  (invalid <$> fields (validatePanel 0%nat two_empty).2 !! 0%nat) = Some true.
Proof. repeat split. Qed.

End NavigatorFacts.

(* ===================================================================== *)
(** * Properties of the update cycle                                      *)
(* ===================================================================== *)

Module UpdaterFacts.
Import JS Slider Updater.

(** C7. Without the page-level baseline inputs the click listener warns,
    shows an alert and returns: no request is issued, and the button, the
    sliders, the result and the suggestions are as they were; a button
    that was enabled and labelled "Update Prediction" still is. *)
Theorem click_without_baseline o v :
  exists v',
    click None o v = Some v' /\
    (click_begin None v).2 = None /\
    log v' = (log v ++
              [ConsoleWarn "BASE_INPUTS is not defined on page. Cannot send base_inputs.";
               Alert "Base input values missing — update cannot run."])%list /\
    existsb is_fetch (drop (length (log v)) (log v')) = false /\
    updateBtn v' = updateBtn v /\
    sliders v' = sliders v /\ spans v' = spans v /\
    result v' = result v /\ suggestions v' = suggestions v.
Proof.
  eexists. split; [reflexivity |]. cbn. repeat split.
  - rewrite <- app_assoc. reflexivity.
  - rewrite <- app_assoc, drop_app_length. reflexivity.
Qed.

Example final_prob_734 :
  result <$>
    click_end (Response true 200 (inr (mkData None (Some (Fin 734 (-3))) None None None)))
      results_view
  = Some (Some "73.4%").
Proof. vm_compute. reflexivity. Qed.

(** The product is that of binary64: [0.5005 * 100] lies below [50.05]. *)
Example final_prob_5005 :
  result_text (mkData None (Some (Fin 5005 (-4))) None None None) = Some "50.0%".
Proof. vm_compute. reflexivity. Qed.

Example tip_with_feature :
  render_tip (TipObject "BMI" "Reduce weight") = LiHtml "<strong>BMI</strong> — Reduce weight".
Proof. reflexivity. Qed.

Example injected_selector :
  selector_of injected = Compounds [(DataFeat, "x"); (Id, "age")].
Proof. vm_compute. reflexivity. Qed.

Example broken_selector : selector_of broken_name = NoSelector.
Proof. vm_compute. reflexivity. Qed.

Lemma click_end_button o v v' :
  click_end o v = Some v' -> updateBtn v' = mkButton false "Update Prediction".
Proof.
  unfold click_end. destruct (try_block o v); intros H; inversion H; reflexivity.
Qed.

(** ** The selector of a plain name *)

Lemma read_quoted_plain name rest :
  plain name = true ->
  read_quoted (name +:+ String quote rest) = Closed name rest.
Proof.
  unfold plain. induction name as [| c name IH]; intros Hp.
  - reflexivity.
  - cbn [list_ascii_of_string forallb] in Hp.
    apply andb_prop in Hp as [Hc Hn].
    unfold plain_char in Hc. apply Bool.negb_true_iff in Hc.
    apply Bool.orb_false_iff in Hc as [Hc Hbr].
    apply Bool.orb_false_iff in Hc as [Hc Hnul].
    apply Bool.orb_false_iff in Hc as [Hq Hbs].
    simpl. rewrite Hq, Hbs, Hnul, Hbr. cbn [orb].
    rewrite (IH Hn). reflexivity.
Qed.

(** The selector of a plain name is the test of [data-feat] against it. *)
Lemma selector_of_plain name :
  plain name = true -> selector_of name = Compounds [(DataFeat, name)].
Proof.
  intros Hp. unfold selector_of, selector_text.
  simpl.
  rewrite (read_quoted_plain name "]" Hp). reflexivity.
Qed.

Lemma select_feat name l :
  select [(DataFeat, name)] l = list_find (fun s => dataset_feat s = Some name) l.
Proof.
  unfold select. apply list_find_ext. intros s.
  cbn [existsb holds]. rewrite Bool.orb_false_r.
  split; [apply bool_decide_eq_true_1 | apply bool_decide_eq_true_2].
Qed.

Lemma find_slider_plain name l :
  plain name = true ->
  find_slider name l = list_find (fun s => dataset_feat s = Some name) l.
Proof.
  intros Hp. unfold find_slider. rewrite (selector_of_plain name Hp). apply select_feat.
Qed.

Lemma correct_plain v it :
  plain (item_name it) = true ->
  correct v it
  = Completes (reflect (list_find (fun s => dataset_feat s = Some (item_name it)) (sliders v))
                       (item_value it) v).
Proof.
  intros Hp. unfold correct. rewrite (selector_of_plain _ Hp), select_feat. reflexivity.
Qed.

(** A name whose first special character is a line break gives no
    selector. *)
Lemma read_quoted_broken a c b :
  plain a = true -> is_line_break c = true ->
  read_quoted (a +:+ String c b) = Broken.
Proof.
  unfold plain. induction a as [| d a IH]; intros Hp Hc.
  - simpl. rewrite Hc.
    assert ((c =? quote)%char = false) as ->.
    { unfold is_line_break in Hc. apply Ascii.eqb_neq. intros ->. discriminate. }
    assert ((c =? "\")%char = false) as ->.
    { unfold is_line_break in Hc. apply Ascii.eqb_neq. intros ->. discriminate. }
    assert ((code c =? 0)%N = false) as ->.
    { unfold is_line_break in Hc. destruct (N.eqb_spec (code c) 0) as [E |]; [| reflexivity].
      rewrite E in Hc. discriminate. }
    reflexivity.
  - cbn [list_ascii_of_string forallb] in Hp.
    apply andb_prop in Hp as [Hd Hn].
    unfold plain_char in Hd. apply Bool.negb_true_iff in Hd.
    apply Bool.orb_false_iff in Hd as [Hd Hbr].
    apply Bool.orb_false_iff in Hd as [Hd Hnul].
    apply Bool.orb_false_iff in Hd as [Hq Hbs].
    simpl. rewrite Hq, Hbs, Hnul, Hbr. cbn [orb].
    rewrite (IH Hn Hc). reflexivity.
Qed.

Lemma selector_of_broken a c b :
  plain a = true -> is_line_break c = true ->
  selector_of (a +:+ String c b) = NoSelector.
Proof.
  intros Hp Hc. unfold selector_of, selector_text.
  assert ((a +:+ String c b) +:+ String quote "]" = a +:+ String c (b +:+ String quote "]"))
    as ->.
  { clear. induction a as [| d a IH]; [reflexivity |].
    change (String d ((a +:+ String c b) +:+ String quote "]")
            = String d (a +:+ String c (b +:+ String quote "]"))).
    f_equal. exact IH. }
  simpl. rewrite (read_quoted_broken a c _ Hp Hc). reflexivity.
Qed.

(** ** Slider corrections *)


Lemma show_value_sliders s v : sliders (show_value s v) = sliders v.
Proof. unfold show_value. destruct (value_span s); reflexivity. Qed.

Lemma show_value_log s v : log (show_value s v) = log v.
Proof. unfold show_value. destruct (value_span s); reflexivity. Qed.






(** Plain names let the loop run to its end. *)
Lemma forEach_plain l : forall v,
  Forall (fun it => plain (item_name it) = true) l ->
  exists w, forEach l v = Completes w.
Proof.
  induction l as [| it l IH]; intros v Hp; cbn [forEach]; [eauto |].
  rewrite (correct_plain v it (Forall_inv Hp)). apply IH, (Forall_inv_tail Hp).
Qed.




(** ** What goes out in [modified] *)









End UpdaterFacts.

(* ===================================================================== *)
(** * One text per number *)
(* ===================================================================== *)

Module PrintFacts.
Import JS JSFacts.

(** ** One text per number *)

Lemma digits_fuel_app f : forall n acc acc',
  digits_fuel f n (acc ++ acc') = (digits_fuel f n acc ++ acc')%list.
Proof.
  induction f as [| f IH]; intros n acc acc'; [reflexivity |].
  cbn [digits_fuel]. destruct (n <=? 0); [reflexivity |].
  rewrite <- IH. reflexivity.
Qed.

Lemma digits_fuel_enough f : forall f' n acc,
  0 <= n < 2 ^ Z.of_nat f -> 0 <= n < 2 ^ Z.of_nat f' ->
  digits_fuel f n acc = digits_fuel f' n acc.
Proof.
  induction f as [| f IH]; intros f' n acc Hf Hf'.
  - change (2 ^ Z.of_nat 0) with 1 in Hf. assert (n = 0) as -> by lia.
    destruct f'; reflexivity.
  - destruct f' as [| f'].
    + change (2 ^ Z.of_nat 0) with 1 in Hf'. assert (n = 0) as -> by lia. reflexivity.
    + cbn [digits_fuel]. destruct (Z.leb_spec n 0); [reflexivity |].
      rewrite Nat2Z.inj_succ, Z.pow_succ_r in Hf, Hf' by lia.
      apply IH; (split; [apply Z.div_pos; lia | apply Z.div_lt_upper_bound; lia]).
Qed.

Lemma log2_fuel n : 0 < n -> 0 <= n < 2 ^ Z.of_nat (S (Z.to_nat (Z.log2 n))).
Proof.
  intros H. split; [lia |].
  rewrite Nat2Z.inj_succ, Z2Nat.id by apply Z.log2_nonneg.
  apply Z.log2_spec, H.
Qed.

Lemma digits_fuel_S f n acc :
  0 < n ->
  digits_fuel (S f) n acc = digits_fuel f (n / 10) (digit_char (n mod 10) :: acc).
Proof. intros H. cbn [digits_fuel]. destruct (Z.leb_spec n 0); [lia | reflexivity]. Qed.

(** The digits of [10 q + d]. *)
Lemma digits_step q d :
  0 < q -> 0 <= d < 10 -> digits (10 * q + d) = (digits q ++ [digit_char d])%list.
Proof.
  intros Hq Hd. unfold digits.
  destruct (Z.leb_spec (10 * q + d) 0); [lia |].
  destruct (Z.leb_spec q 0); [lia |].
  rewrite (digits_fuel_S _ (10 * q + d)) by lia.
  replace ((10 * q + d) / 10) with q
    by (rewrite Z.mul_comm, Z.div_add_l, (Z.div_small d 10) by lia; lia).
  replace ((10 * q + d) mod 10) with d
    by (rewrite Z.add_comm, Z.mul_comm, Z.mod_add, Z.mod_small by lia; lia).
  change [digit_char d] with ([] ++ [digit_char d])%list at 1.
  rewrite digits_fuel_app. f_equal.
  apply digits_fuel_enough; [| apply log2_fuel, Hq].
  split; [lia |].
  pose proof (Z.log2_spec (10 * q + d) ltac:(lia)) as [_ Hu].
  rewrite Z2Nat.id by apply Z.log2_nonneg.
  rewrite Z.pow_succ_r in Hu by apply Z.log2_nonneg. lia.
Qed.

Lemma digits_scaled s j :
  0 < s -> digits (s * 10 ^ Z.of_nat j) = (digits s ++ repeat "0"%char j)%list.
Proof.
  intros Hs. induction j as [| j IH].
  - rewrite Z.mul_1_r, app_nil_r. reflexivity.
  - rewrite Nat2Z.inj_succ, Z.pow_succ_r by lia.
    replace (s * (10 * 10 ^ Z.of_nat j)) with (10 * (s * 10 ^ Z.of_nat j) + 0) by ring.
    rewrite digits_step by (try lia; apply Z.mul_pos_pos; lia).
    rewrite IH, <- app_assoc. f_equal.
    change [digit_char 0] with (repeat "0"%char 1).
    rewrite <- repeat_app. f_equal. lia.
Qed.

Lemma digit_val_range c :
  is_digit c = true -> 0 <= digit_val c <= 9 /\ (c <> "0"%char -> digit_val c <> 0).
Proof.
  intros H.
  destruct c as [[] [] [] [] [] [] [] []]; try discriminate H;
    (split; [cbv; split; discriminate | intros Hc; try congruence; cbv; discriminate]).
Qed.

Lemma drop_zeros_head l :
  drop_zeros l = [] \/ exists c r, drop_zeros l = c :: r /\ c <> "0"%char.
Proof.
  induction l as [| c l IH]; [now left |].
  cbn [drop_zeros]. destruct (Ascii.eqb_spec c "0"); [exact IH |].
  right. eauto.
Qed.

Lemma strip_last l :
  strip_trailing_zeros l = [] \/
  exists l0 c, strip_trailing_zeros l = (l0 ++ [c])%list /\ c <> "0"%char.
Proof.
  unfold strip_trailing_zeros.
  destruct (drop_zeros_head (rev l)) as [-> | (c & r & -> & Hc)]; [now left |].
  right. exists (rev r), c. split; [reflexivity | exact Hc].
Qed.

(** A positive integer is a number not divisible by ten times a power of
    ten, and its digits show it. *)
Lemma normal_form a :
  0 < a ->
  exists s j, 0 < s /\ s mod 10 <> 0 /\ a = s * 10 ^ Z.of_nat j /\
              strip_trailing_zeros (digits a) = digits s /\
              Z.of_nat (length (digits a)) = Z.of_nat (length (digits s)) + Z.of_nat j.
Proof.
  intros Ha.
  pose proof (digits_digit a) as HD.
  pose proof (digits_val_digits a ltac:(lia)) as HV.
  destruct (strip_split (digits a)) as [j Hj].
  pose proof (strip_digit _ HD) as HS.
  set (ds := strip_trailing_zeros (digits a)) in *.
  assert (a = digits_val ds * 10 ^ Z.of_nat j) as Hval.
  { rewrite <- HV, Hj, digits_val_app, digits_val_repeat, repeat_length. lia. }
  destruct (strip_last (digits a)) as [E | (l0 & c & E & Hc)]; fold ds in E.
  { rewrite E in Hval. change (digits_val []) with 0 in Hval. lia. }
  assert (is_digit c = true) as Hdc.
  { rewrite E in HS. apply Forall_app in HS as [_ HS]. exact (Forall_inv HS). }
  destruct (digit_val_range c Hdc) as [Hr Hnz]. specialize (Hnz Hc).
  assert (digits_val ds = 10 * digits_val l0 + digit_val c) as Hs.
  { rewrite E, digits_val_app.
    change (digits_val [c]) with (10 * 0 + digit_val c).
    change (10 ^ Z.of_nat (length [c])) with 10. lia. }
  assert (0 < digits_val ds) as Hpos.
  { destruct (Z.lt_trichotomy 0 (digits_val ds)) as [H | [H | H]]; [exact H | |].
    - rewrite <- H in Hval. lia.
    - assert (0 < 10 ^ Z.of_nat j) by (apply Z.pow_pos_nonneg; lia). nia. }
  exists (digits_val ds), j. split; [exact Hpos |]. split.
  - rewrite Hs, Z.add_comm, Z.mul_comm, Z.mod_add, Z.mod_small by lia. exact Hnz.
  - split; [exact Hval |].
    assert (ds = digits (digits_val ds)) as Hds.
    { apply (app_inv_tail (repeat "0"%char j)).
      rewrite <- Hj, <- digits_scaled, <- Hval by exact Hpos. reflexivity. }
    split; [exact Hds |].
    rewrite Hj at 1. rewrite length_app, repeat_length, <- Hds. lia.
Qed.

(** The same number written as [s * 10^t] with [s] not divisible by ten
    in two ways: the two ways are one. *)
Lemma unique_scale s t s' t' :
  0 < s -> 0 < s' -> s mod 10 <> 0 -> s' mod 10 <> 0 -> t <= t' ->
  (to_Q s t == to_Q s' t')%Q -> s = s' /\ t = t'.
Proof.
  intros Hs Hs' Hm Hm' Ht HQ.
  assert (s = s' * 10 ^ (t' - t)) as E.
  { apply inject_Z_injective.
    apply (Qmult_inj_r _ _ ((10 # 1) ^ t)); [apply Qpower_not_0, ten_nonzero |].
    fold (to_Q s t). fold (to_Q (s' * 10 ^ (t' - t)) t).
    rewrite to_Q_scale by lia. replace (t' - t + t) with t' by lia. exact HQ. }
  destruct (Z.eq_dec t t') as [-> | Hne].
  - rewrite Z.sub_diag, Z.mul_1_r in E. auto.
  - exfalso. apply Hm. rewrite E.
    replace (t' - t) with (Z.succ (t' - t - 1)) by lia.
    rewrite Z.pow_succ_r by lia.
    replace (s' * (10 * 10 ^ (t' - t - 1))) with (s' * 10 ^ (t' - t - 1) * 10) by ring.
    apply Z.mod_mul. lia.
Qed.

Lemma unsigned_to_string_same a e a' e' :
  0 < a -> 0 < a' -> (to_Q a e == to_Q a' e')%Q ->
  unsigned_to_string a e = unsigned_to_string a' e'.
Proof.
  intros Ha Ha' HQ.
  destruct (normal_form a Ha) as (s & j & Hs & Hm & Ea & Est & Elen).
  destruct (normal_form a' Ha') as (s' & j' & Hs' & Hm' & Ea' & Est' & Elen').
  assert ((to_Q s (Z.of_nat j + e) == to_Q s' (Z.of_nat j' + e'))%Q) as HQ'.
  { rewrite <- !to_Q_scale by lia. rewrite <- Ea, <- Ea'. exact HQ. }
  assert (s = s' /\ Z.of_nat j + e = Z.of_nat j' + e') as [-> Et].
  { destruct (Z.le_ge_cases (Z.of_nat j + e) (Z.of_nat j' + e')) as [Hle | Hge].
    - apply unique_scale; assumption.
    - symmetry in HQ'.
      destruct (unique_scale s' _ s _ Hs' Hs Hm' Hm Hge HQ') as [-> ->]. auto. }
  unfold unsigned_to_string. cbv zeta. rewrite Est, Est', Elen, Elen'.
  replace (Z.of_nat (length (digits s')) + Z.of_nat j + e)
    with (Z.of_nat (length (digits s')) + Z.of_nat j' + e') by lia.
  reflexivity.
Qed.

Lemma to_Q_pos m e : 0 < m -> (0 < to_Q m e)%Q.
Proof.
  intros H. unfold to_Q. apply Qmult_lt_0_compat.
  - change 0%Q with (inject_Z 0). rewrite <- Zlt_Qlt. exact H.
  - apply Qpower_0_lt. reflexivity.
Qed.

Lemma to_Q_zero e : (to_Q 0 e == 0)%Q.
Proof. unfold to_Q. change (inject_Z 0) with 0%Q. apply Qmult_0_l. Qed.

Lemma to_Q_neg m e : m < 0 -> (to_Q m e < 0)%Q.
Proof.
  intros H. pose proof (to_Q_pos (- m) e ltac:(lia)) as Hp.
  rewrite to_Q_opp in Hp. apply Qopp_lt_compat in Hp.
  rewrite Qopp_involutive in Hp. exact Hp.
Qed.

(** Numbers that are the same print as the same text. *)
Lemma to_string_same x y : same x y -> to_string x = to_string y.
Proof.
  destruct x as [| a | m e], y as [| b | m' e']; cbn [same]; try easy.
  - intros ->. reflexivity.
  - intros HQ. cbn [to_string]. unfold finite_to_string.
    destruct (Z.lt_trichotomy m 0) as [Hm | [-> | Hm]];
      destruct (Z.lt_trichotomy m' 0) as [Hm' | [-> | Hm']];
      try (exfalso;
           first [ pose proof (to_Q_neg m e Hm) as H1 | pose proof (to_Q_pos m e Hm) as H1
                 | pose proof (to_Q_zero e) as H1 ];
           first [ pose proof (to_Q_neg m' e' Hm') as H2 | pose proof (to_Q_pos m' e' Hm') as H2
                 | pose proof (to_Q_zero e') as H2 ];
           rewrite HQ in H1;
           first [ rewrite H2 in H1; exact (Qlt_irrefl _ H1)
                 | rewrite H1 in H2; exact (Qlt_irrefl _ H2)
                 | exact (Qlt_irrefl _ (Qlt_trans _ _ _ H1 H2)) ]).
    + destruct (Z.eqb_spec m 0), (Z.eqb_spec m' 0); try lia.
      destruct (Z.ltb_spec m 0), (Z.ltb_spec m' 0); try lia.
      f_equal. apply unsigned_to_string_same; try lia.
      replace (Z.abs m) with (- m) by lia. replace (Z.abs m') with (- m') by lia.
      rewrite !to_Q_opp, HQ. reflexivity.
    + reflexivity.
    + destruct (Z.eqb_spec m 0), (Z.eqb_spec m' 0); try lia.
      destruct (Z.ltb_spec m 0), (Z.ltb_spec m' 0); try lia.
      apply unsigned_to_string_same; try lia.
      replace (Z.abs m) with m by lia. replace (Z.abs m') with m' by lia. exact HQ.
Qed.

End PrintFacts.

(* ===================================================================== *)
(** * Properties of key resolution *)
(* ===================================================================== *)

Module KeyFacts.
Import JS Slider SliderFacts.

(** ** Keys *)

Lemma alnum_char c :
  is_alnum c = true ->
  lower c = c /\ is_space c = false /\ is_separator c = false /\ not_alnum c = false.
Proof.
  intros H.
  destruct c as [[] [] [] [] [] [] [] []]; try discriminate H; repeat split.
Qed.

Lemma delete_all_app cls s t :
  delete_all cls (s +:+ t) = delete_all cls s +:+ delete_all cls t.
Proof.
  induction s as [| c s IH]; [reflexivity |].
  change (String c s +:+ t) with (String c (s +:+ t)). cbn [delete_all].
  destruct (cls c); rewrite IH; reflexivity.
Qed.

Lemma toLowerCase_app s t : toLowerCase (s +:+ t) = toLowerCase s +:+ toLowerCase t.
Proof.
  induction s as [| c s IH]; [reflexivity |].
  change (String c s +:+ t) with (String c (s +:+ t)). cbn [toLowerCase].
  rewrite IH. reflexivity.
Qed.

Lemma three_passes s :
  delete_all not_alnum (delete_all is_separator (delete_all is_space s))
  = delete_all not_alnum s.
Proof.
  induction s as [| c s IH]; [reflexivity |].
  cbn [delete_all].
  destruct (is_space c) eqn:Esp.
  - rewrite IH. replace (not_alnum c) with true; [reflexivity |].
    destruct c as [[] [] [] [] [] [] [] []]; try discriminate Esp; reflexivity.
  - cbn [delete_all]. destruct (is_separator c) eqn:Ese.
    + rewrite IH. replace (not_alnum c) with true; [reflexivity |].
      destruct c as [[] [] [] [] [] [] [] []]; try discriminate Ese; reflexivity.
    + cbn [delete_all]. rewrite IH. reflexivity.
Qed.

Lemma normalizeKey_filter t : normalizeKey t = delete_all not_alnum (toLowerCase t).
Proof.
  unfold normalizeKey. destruct (String.eqb_spec t "") as [-> | _];
    [reflexivity | apply three_passes].
Qed.

(** X1. [normalizeKey] lower-cases the text and keeps exactly its letters and
    digits: the passes for white space and for separators remove nothing
    that the last pass would keep.  Hence a character that is no letter and
    no digit can be put anywhere into a label without changing its key. *)
Theorem normalizeKey_keeps_alnum s :
  normalizeKey s = delete_all not_alnum (toLowerCase s) /\
  forall a c b, not_alnum (lower c) = true ->
    normalizeKey (a +:+ String c b) = normalizeKey (a +:+ b).
Proof.
  split; [apply normalizeKey_filter |].
  intros a c b Hc. rewrite !normalizeKey_filter, !toLowerCase_app, !delete_all_app.
  cbn [toLowerCase delete_all]. rewrite Hc. reflexivity.
Qed.

Lemma delete_all_alnum s : alnum_only (delete_all not_alnum s) = true.
Proof.
  induction s as [| c s IH]; [reflexivity |].
  cbn [delete_all]. destruct (not_alnum c) eqn:E; [exact IH |].
  cbn [alnum_only]. rewrite IH. unfold not_alnum in E. unfold is_alnum.
  destruct (is_lower c || is_digit c); [reflexivity | discriminate].
Qed.

Lemma alnum_only_fixed s :
  alnum_only s = true -> delete_all not_alnum (toLowerCase s) = s.
Proof.
  induction s as [| c s IH]; [reflexivity |].
  cbn [alnum_only]. intros [Hc Hs]%andb_prop.
  destruct (alnum_char c Hc) as (Hl & _ & _ & Hn).
  cbn [toLowerCase delete_all]. rewrite Hl, Hn, (IH Hs). reflexivity.
Qed.

Lemma normalizeKey_alnum s : alnum_only (normalizeKey s) = true.
Proof. rewrite normalizeKey_filter. apply delete_all_alnum. Qed.

Lemma normalizeKey_fixed s : alnum_only s = true -> normalizeKey s = s.
Proof. intros H. rewrite normalizeKey_filter. apply alnum_only_fixed, H. Qed.

(** X2. The key [normalizeKey] returns holds lower-case letters and digits
    only, and normalising it again gives it back. *)
Theorem normalizeKey_idempotent s :
  alnum_only (normalizeKey s) = true /\
  normalizeKey (normalizeKey s) = normalizeKey s.
Proof.
  split; [apply normalizeKey_alnum |].
  apply normalizeKey_fixed, normalizeKey_alnum.
Qed.

(** ** Resolution *)

Lemma SYN_lands_in_LIMITS :
  Forall (fun kv => is_Some (own LIMITS (snd kv)) /\ inherited (fst kv) = false) SYN.
Proof. repeat constructor; eauto. Qed.

Lemma LIMITS_keys_alnum : Forall (fun kv => alnum_only (fst kv) = true) LIMITS.
Proof. repeat constructor. Qed.

Lemma own_key_canonical k lim : own LIMITS k = Some lim -> canonicalKey k = k.
Proof.
  intros H.
  exact (proj1 (List.Forall_forall _ _) LIMITS_keys_canonical _ (own_In _ _ _ H)).
Qed.

(** X3. What [canonicalKey] returns is the normalised key itself or, through
    the synonym map, a key of the limits table; the synonyms never lead
    outside the table. *)
Theorem canonicalKey_result raw :
  canonicalKey raw = normalizeKey raw \/
  (own SYN (normalizeKey raw) = Some (canonicalKey raw) /\
   is_Some (own LIMITS (canonicalKey raw))).
Proof.
  unfold canonicalKey. destruct (LIMITS_get (normalizeKey raw)); [now left |].
  destruct (own SYN (normalizeKey raw)) as [c |] eqn:E; [| now left].
  right. split; [reflexivity |].
  exact (proj1 (proj1 (List.Forall_forall _ _) SYN_lands_in_LIMITS _ (own_In _ _ _ E))).
Qed.

(** X4. Resolving a key twice is resolving it once, whatever the text. *)
Theorem canonicalKey_stable raw : canonicalKey (canonicalKey raw) = canonicalKey raw.
Proof.
  unfold canonicalKey at 2 3.
  pose proof (normalizeKey_fixed _ (normalizeKey_alnum raw)) as Hn.
  destruct (LIMITS_get (normalizeKey raw)) eqn:E1.
  - unfold canonicalKey. rewrite Hn, E1. reflexivity.
  - destruct (own SYN (normalizeKey raw)) as [c |] eqn:E2.
    + destruct (proj1 (proj1 (List.Forall_forall _ _) SYN_lands_in_LIMITS _
                         (own_In _ _ _ E2))) as [lim Hl].
      apply (own_key_canonical c lim Hl).
    + unfold canonicalKey. rewrite Hn, E1, E2. reflexivity.
Qed.

End KeyFacts.

(* ===================================================================== *)
(** * Properties of clamping and of normalised sliders *)
(* ===================================================================== *)

Module RangeFacts.
Import JS Slider JSFacts SliderFacts PrintFacts.

Lemma same_sym x y : same x y -> same y x.
Proof.
  destruct x as [| [] |], y as [| [] |]; cbn [same]; try easy;
    intros H; symmetry; exact H.
Qed.

Lemma same_trans x y z : same x y -> same y z -> same x z.
Proof.
  destruct x as [| [] |], y as [| [] |], z as [| [] |]; cbn [same]; try easy;
    intros H1 H2; rewrite H1; exact H2.
Qed.

Lemma leb_antisym x y : leb x y = true -> leb y x = true -> same x y.
Proof.
  destruct x as [| [] | m e], y as [| [] | m' e']; try easy.
  rewrite !leb_Fin. cbn [same]. apply Qle_antisym.
Qed.

(** A number inside the bounds is what clamping returns. *)
Lemma clamp_inside lo hi x :
  leb lo x = true -> leb x hi = true ->
  same (Math_min hi (Math_max lo x)) x.
Proof.
  intros H1 H2.
  destruct (leb_not_NaN _ _ H1) as [Hlo Hx].
  destruct (leb_not_NaN _ _ H2) as [_ Hhi].
  unfold Math_max. rewrite Hlo, Hx. cbn [orb].
  destruct (ltb lo x) eqn:E1.
  - unfold Math_min. rewrite Hhi, Hx. cbn [orb].
    destruct (ltb x hi) eqn:E2; [apply same_refl |].
    apply leb_antisym; [| exact H2]. apply not_ltb_leb; assumption.
  - assert (same lo x) as Hs.
    { apply leb_antisym; [exact H1 |]. apply not_ltb_leb; assumption. }
    unfold Math_min. rewrite Hhi, Hlo. cbn [orb].
    destruct (ltb lo hi) eqn:E2; [exact Hs |].
    apply same_trans with lo; [| exact Hs].
    apply leb_antisym.
    + apply not_ltb_leb; assumption.
    + apply leb_trans with x; [| exact H2].
      rewrite (leb_same _ _ _ _ Hs (same_refl x)). apply leb_refl, Hx.
Qed.

(** What [clamp] computes, and where the number it returns lies. *)
Lemma clamp_value v lo hi :
  clamp v (Some lo) (Some hi)
  = Some (if isNaN (as_number v) then lo
          else Math_min hi (Math_max lo (as_number v))).
Proof.
  unfold clamp. fold (as_number v). cbn [ToNumber].
  destruct (isNaN (as_number v)); reflexivity.
Qed.

Lemma clamped_number lo hi x :
  leb lo hi = true ->
  let c := if isNaN x then lo else Math_min hi (Math_max lo x) in
  leb lo c = true /\ leb c hi = true /\
  (leb lo x = true -> leb x hi = true -> same c x).
Proof.
  intros Hle c. subst c. destruct (leb_not_NaN _ _ Hle) as [Hlo Hhi].
  destruct (isNaN x) eqn:Ex.
  - split; [apply leb_refl, Hlo |]. split; [exact Hle |].
    intros H. apply leb_not_NaN in H as [_ H]. congruence.
  - destruct (clamp_between lo hi x Hle Ex) as [H1 H2].
    split; [exact H1 |]. split; [exact H2 | apply clamp_inside].
Qed.

(** X5. [clamp] with bounds [lo <= hi]: the result is a number between the
    bounds; it is [lo] when the argument is not a number, the argument
    when that lies between the bounds, and clamping it again changes
    nothing. *)
Theorem clamp_spec v lo hi :
  leb lo hi = true ->
  exists c,
    clamp v (Some lo) (Some hi) = Some c /\
    leb lo c = true /\ leb c hi = true /\
    (isNaN (as_number v) = true -> c = lo) /\
    (leb lo (as_number v) = true -> leb (as_number v) hi = true -> same c (as_number v)) /\
    (exists c', clamp (VNum c) (Some lo) (Some hi) = Some c' /\ same c' c).
Proof.
  intros Hle. rewrite clamp_value.
  destruct (clamped_number lo hi (as_number v) Hle) as (H1 & H2 & H3).
  eexists. split; [reflexivity |].
  split; [exact H1 |]. split; [exact H2 |]. split; [| split; [exact H3 |]].
  - intros ->. reflexivity.
  - rewrite clamp_value. eexists. split; [reflexivity |].
    exact (proj2 (proj2 (clamped_number lo hi _ Hle)) H1 H2).
Qed.

Lemma clamp_spec_witness :
  leb (of_Z 0) (of_Z 6) = true /\
  clamp (VStr "7.5") (Some (of_Z 0)) (Some (of_Z 6)) = Some (of_Z 6).
Proof.
  split; [reflexivity |].
  destruct (clamp_spec (VStr "7.5") (of_Z 0) (of_Z 6) eq_refl) as (c & Hc & _).
  rewrite Hc. injection Hc as <-. reflexivity.
Defined.

(** ** What [applyLimitsFromMap] keeps and establishes *)

Lemma LIMITS_within_sentinels :
  Forall (fun kv => match lim_min (snd kv), lim_max (snd kv) with
                    | Some lo, Some hi =>
                        leb (of_Z (-50)) lo = true /\ leb hi (of_Z 500) = true
                    | _, _ => False
                    end) LIMITS.
Proof. repeat constructor. Qed.

Lemma applyLimits_identity i :
  dataset_feat (applyLimitsFromMap i) = dataset_feat i /\
  input_id (applyLimitsFromMap i) = input_id i /\
  input_name (applyLimitsFromMap i) = input_name i /\
  value_span (applyLimitsFromMap i) = value_span i.
Proof.
  unfold applyLimitsFromMap.
  destruct (LIMITS_get _) as [lim |]; [| easy].
  cbv zeta. destruct (min_guard _ _), (max_guard _ _); cbn [set_min set_max input_step];
    destruct (step_guard _); easy.
Qed.

Lemma applyLimits_featRaw i : featRaw (applyLimitsFromMap i) = featRaw i.
Proof.
  destruct (applyLimits_identity i) as (H1 & H2 & H3 & _).
  unfold featRaw. rewrite H1, H2, H3. reflexivity.
Qed.

(** X6. [applyLimitsFromMap] never touches what identifies a slider (its
    [data-feat], [id], [name] and readout), so the key it resolves stays
    the same; and a slider whose key is in neither table is returned as it
    is. *)
Theorem applyLimits_keeps_identity i :
  dataset_feat (applyLimitsFromMap i) = dataset_feat i /\
  input_id (applyLimitsFromMap i) = input_id i /\
  input_name (applyLimitsFromMap i) = input_name i /\
  value_span (applyLimitsFromMap i) = value_span i /\
  canonicalKey (featRaw (applyLimitsFromMap i)) = canonicalKey (featRaw i) /\
  (LIMITS_get (canonicalKey (featRaw i)) = None -> applyLimitsFromMap i = i).
Proof.
  destruct (applyLimits_identity i) as (H1 & H2 & H3 & H4).
  repeat split; try assumption.
  - rewrite applyLimits_featRaw. reflexivity.
  - intros H. unfold applyLimitsFromMap. rewrite H. reflexivity.
Qed.

Section Normalised.
Variables (i : input) (lo hi st : num).
Hypothesis Hres : resolves i lo hi st.

Let out : input := applyLimitsFromMap i.

Lemma resolves_sentinels : leb (of_Z (-50)) lo = true /\ leb hi (of_Z 500) = true.
Proof.
  exact (proj1 (List.Forall_forall _ _) LIMITS_within_sentinels _ (own_In _ _ _ Hres)).
Qed.

Lemma resolves_after : resolves out lo hi st.
Proof. unfold resolves, out. rewrite applyLimits_featRaw. exact Hres. Qed.

(** X7. After [applyLimitsFromMap] the declared range contains the canonical
    one and stays within the sentinels: -50 <= min <= canonical min and
    canonical max <= max <= 500. *)
Theorem applyLimits_declared_range :
  leb (of_Z (-50)) (parseFloat (input_min out)) = true /\
  leb (parseFloat (input_min out)) lo = true /\
  leb hi (parseFloat (input_max out)) = true /\
  leb (parseFloat (input_max out)) (of_Z 500) = true.
Proof.
  pose proof (resolves_ordered _ _ _ _ Hres) as Hle.
  destruct (leb_not_NaN _ _ Hle) as [Hlo Hhi].
  destruct resolves_sentinels as [Hs1 Hs2].
  unfold out.
  rewrite (applyLimits_min _ _ _ _ Hres), (applyLimits_max _ _ _ _ Hres).
  repeat split.
  - destruct (min_guard _ _) eqn:G.
    + rewrite (leb_same _ _ _ _ (same_refl _) (parseFloat_to_string lo)). exact Hs1.
    + unfold min_guard in G. apply Bool.orb_false_iff in G as [G _].
      apply Bool.orb_false_iff in G as [G1 G2].
      apply not_ltb_leb; [exact G1 | reflexivity | exact G2].
  - destruct (min_guard _ _) eqn:G.
    + rewrite (leb_same _ _ _ _ (parseFloat_to_string lo) (same_refl _)).
      apply leb_refl, Hlo.
    + unfold min_guard in G. cbn [lim_min ToNumber] in G.
      apply Bool.orb_false_iff in G as [G G3].
      apply Bool.orb_false_iff in G as [G1 _].
      apply not_gtb_leb; assumption.
  - destruct (max_guard _ _) eqn:G.
    + rewrite (leb_same _ _ _ _ (same_refl _) (parseFloat_to_string hi)).
      apply leb_refl, Hhi.
    + unfold max_guard in G. cbn [lim_max ToNumber] in G.
      apply Bool.orb_false_iff in G as [G G3].
      apply Bool.orb_false_iff in G as [G1 _].
      apply not_ltb_leb; assumption.
  - destruct (max_guard _ _) eqn:G.
    + rewrite (leb_same _ _ _ _ (parseFloat_to_string hi) (same_refl _)). exact Hs2.
    + unfold max_guard in G. apply Bool.orb_false_iff in G as [G _].
      apply Bool.orb_false_iff in G as [G1 G2].
      apply not_gtb_leb; [exact G1 | reflexivity | exact G2].
Qed.

(** The number the slider holds after [applyLimitsFromMap]. *)
Lemma applyLimits_number :
  exists c, input_value out = to_string c /\
            leb lo c = true /\ leb c hi = true /\
            (leb lo (parseFloat (input_value i)) = true ->
             leb (parseFloat (input_value i)) hi = true ->
             same c (parseFloat (input_value i))).
Proof.
  pose proof (resolves_ordered _ _ _ _ Hres) as Hle.
  destruct (clamped_number lo hi (parseFloat (input_value i)) Hle) as (H1 & H2 & H3).
  eexists. unfold out. rewrite (applyLimits_value _ _ _ _ Hres), clamp_value.
  split; [reflexivity |]. repeat split; assumption.
Qed.

(** X8. After [applyLimitsFromMap] the value lies in the canonical range, and
    a value that was already in the canonical range is still the same
    number. *)
Theorem applyLimits_value_canonical :
  leb lo (parseFloat (input_value out)) = true /\
  leb (parseFloat (input_value out)) hi = true /\
  (leb lo (parseFloat (input_value i)) = true ->
   leb (parseFloat (input_value i)) hi = true ->
   same (parseFloat (input_value out)) (parseFloat (input_value i))).
Proof.
  destruct applyLimits_number as (c & -> & H1 & H2 & H3).
  pose proof (parseFloat_to_string c) as Sc.
  repeat split.
  - rewrite (leb_same _ _ _ _ (same_refl _) Sc). exact H1.
  - rewrite (leb_same _ _ _ _ Sc (same_refl _)). exact H2.
  - intros Ha Hb. apply same_trans with c; [exact Sc | apply H3; assumption].
Qed.

End Normalised.

Lemma input_eq a b :
  dataset_feat a = dataset_feat b -> input_id a = input_id b ->
  input_name a = input_name b -> input_min a = input_min b ->
  input_max a = input_max b -> input_step a = input_step b ->
  input_value a = input_value b -> value_span a = value_span b -> a = b.
Proof. destruct a, b. cbn. intros. congruence. Qed.

(** X9. Normalising a slider twice is normalising it once: the listeners can
    re-run [applyLimitsFromMap] on every event without the slider
    drifting. *)
Theorem applyLimits_idempotent i lo hi st :
  resolves i lo hi st ->
  applyLimitsFromMap (applyLimitsFromMap i) = applyLimitsFromMap i.
Proof.
  intros Hres.
  pose proof (resolves_after i lo hi st Hres) as Hres'.
  destruct (applyLimits_identity (applyLimitsFromMap i)) as (H1 & H2 & H3 & H4).
  apply input_eq; try assumption.
  - rewrite (applyLimits_min _ _ _ _ Hres').
    pose proof (applyLimits_min _ _ _ _ Hres) as E.
    destruct (min_guard (parseFloat (input_min i)) _) eqn:G in E.
    + rewrite E. match goal with |- context [min_guard ?a ?b] => destruct (min_guard a b) end; reflexivity.
    + rewrite E, G. reflexivity.
  - rewrite (applyLimits_max _ _ _ _ Hres').
    pose proof (applyLimits_max _ _ _ _ Hres) as E.
    destruct (max_guard (parseFloat (input_max i)) _) eqn:G in E.
    + rewrite E. match goal with |- context [max_guard ?a ?b] => destruct (max_guard a b) end; reflexivity.
    + rewrite E, G. reflexivity.
  - rewrite (applyLimits_step _ _ _ _ Hres').
    pose proof (applyLimits_step _ _ _ _ Hres) as E.
    destruct (step_guard (input_step i)) eqn:G in E.
    + rewrite E. match goal with |- context [step_guard ?a] => destruct (step_guard a) end; reflexivity.
    + rewrite E, G. reflexivity.
  - rewrite (applyLimits_value _ _ _ _ Hres').
    destruct (applyLimits_number i lo hi st Hres) as (c & -> & Hc1 & Hc2 & _).
    pose proof (parseFloat_to_string c) as Sc.
    rewrite clamp_value.
    destruct (clamped_number lo hi (parseFloat (to_string c))
                (resolves_ordered _ _ _ _ Hres)) as (_ & _ & Hin).
    cbn [DOMString as_number] in *. apply to_string_same.
    apply same_trans with (parseFloat (to_string c)); [| exact Sc].
    apply Hin.
    + rewrite (leb_same _ _ _ _ (same_refl _) Sc). exact Hc1.
    + rewrite (leb_same _ _ _ _ Sc (same_refl _)). exact Hc2.
Qed.

Lemma applyLimits_idempotent_witness :
  resolves tighter_age (of_Z 18) (of_Z 100) one /\
  applyLimitsFromMap (applyLimitsFromMap tighter_age) = applyLimitsFromMap tighter_age.
Proof.
  assert (resolves tighter_age (of_Z 18) (of_Z 100) one) as H by reflexivity.
  split; [exact H |].
  exact (applyLimits_idempotent tighter_age (of_Z 18) (of_Z 100) one H).
Defined.

Lemma applyLimits_declared_range_witness :
  resolves looser_age (of_Z 18) (of_Z 100) one /\
  leb (parseFloat (input_min (applyLimitsFromMap looser_age))) (of_Z 18) = true.
Proof.
  assert (resolves looser_age (of_Z 18) (of_Z 100) one) as H by reflexivity.
  split; [exact H |].
  exact (proj1 (proj2 (applyLimits_declared_range looser_age _ _ _ H))).
Defined.

Lemma applyLimits_value_canonical_witness :
  resolves tighter_age (of_Z 18) (of_Z 100) one /\
  leb (of_Z 18) (parseFloat (input_value (applyLimitsFromMap tighter_age))) = true.
Proof.
  assert (resolves tighter_age (of_Z 18) (of_Z 100) one) as H by reflexivity.
  split; [exact H |].
  exact (proj1 (applyLimits_value_canonical tighter_age _ _ _ H)).
Defined.

Lemma applyLimits_value_between_witness :
  resolves tighter_age (of_Z 18) (of_Z 100) one /\
  leb (parseFloat (input_min (applyLimitsFromMap tighter_age)))
      (parseFloat (input_value (applyLimitsFromMap tighter_age))) = true.
Proof.
  assert (resolves tighter_age (of_Z 18) (of_Z 100) one) as H by reflexivity.
  split; [exact H |].
  exact (proj1 (applyLimits_value_between tighter_age _ _ _ H)).
Defined.

Lemma applyLimits_step_positive_witness :
  resolves looser_age (of_Z 18) (of_Z 100) one /\
  ltb (of_Z 0) (parseFloat (input_step (applyLimitsFromMap looser_age))) = true.
Proof.
  assert (resolves looser_age (of_Z 18) (of_Z 100) one) as H by reflexivity.
  split; [exact H |].
  exact (applyLimits_step_positive looser_age _ _ _ H (or_intror eq_refl)).
Defined.

End RangeFacts.

(* ===================================================================== *)
(** * Properties of readouts, requests and corrections *)
(* ===================================================================== *)

Module CycleFacts.
Import JS Slider Updater JSFacts SliderFacts UpdaterFacts PrintFacts RangeFacts.

(** ** Readouts *)

(** X12. After the [update] closure has run on a slider, the slider is
    normalised, its readout shows exactly its value, and no other slider is
    touched. *)
Theorem update_mirrors_value el v s j :
  sliders v !! el = Some s -> value_span s = Some j -> (j < length (spans v))%nat ->
  sliders (update el v) !! el = Some (applyLimitsFromMap s) /\
  spans (update el v) !! j = Some (input_value (applyLimitsFromMap s)) /\
  (forall el', el' <> el -> sliders (update el v) !! el' = sliders v !! el') /\
  (forall j', j' <> j -> spans (update el v) !! j' = spans v !! j').
Proof.
  intros Hs Hj Hlt. unfold update. rewrite Hs. unfold show_value.
  destruct (applyLimits_identity s) as (_ & _ & _ & Hspan).
  rewrite Hspan, Hj. cbn [sliders spans with_spans with_sliders].
  repeat split.
  - apply list_lookup_insert_eq, (lookup_lt_Some _ _ _ Hs).
  - apply list_lookup_insert_eq, Hlt.
  - intros el' Hne. apply list_lookup_insert_ne. congruence.
  - intros j' Hne. apply list_lookup_insert_ne. congruence.
Qed.

Lemma update_mirrors_value_witness :
  sliders two_ages !! 1%nat
    = Some (mkInput (Some "age") "a2" "" "18" "100" "1" "50" (Some 1%nat)) /\
  spans (update 1%nat two_ages) !! 1%nat = Some "50".
Proof.
  split; [reflexivity |].
  exact (proj1 (proj2 (update_mirrors_value 1%nat two_ages _ 1%nat eq_refl eq_refl
                         ltac:(cbn; lia)))).
Defined.

Lemma show_all_sliders l : forall w,
  sliders (foldl (fun w s => show_value s w) w l) = sliders w.
Proof.
  induction l as [| s l IH]; intros w; [reflexivity |].
  cbn [foldl]. rewrite IH. apply show_value_sliders.
Qed.

Lemma show_all_length l : forall w,
  length (spans (foldl (fun w s => show_value s w) w l)) = length (spans w).
Proof.
  induction l as [| s l IH]; intros w; [reflexivity |].
  cbn [foldl]. rewrite IH. unfold show_value.
  destruct (value_span s); [apply length_insert | reflexivity].
Qed.

(** X13. When the page has loaded every slider is normalised, and the readout
    of a slider shows the value of that slider unless a later slider
    shares the readout. *)
Theorem init_shows_values v :
  sliders (init v) = map applyLimitsFromMap (sliders v) /\
  forall i s j,
    sliders (init v) !! i = Some s -> value_span s = Some j ->
    (j < length (spans v))%nat ->
    (forall i' s', (i < i')%nat -> sliders (init v) !! i' = Some s' ->
                   value_span s' <> Some j) ->
    spans (init v) !! j = Some (input_value s).
Proof.
  unfold init. set (v1 := with_sliders (map applyLimitsFromMap (sliders v)) v).
  rewrite show_all_sliders. split; [reflexivity |].
  change (sliders v1) with (map applyLimitsFromMap (sliders v)).
  assert (spans v1 = spans v) as Hsp by reflexivity. rewrite <- Hsp.
  generalize (map applyLimitsFromMap (sliders v)) as l. generalize v1 as w.
  clear. intros w l. revert w.
  induction l as [| a l IH] using rev_ind; intros w i s j Hi Hj Hlt Hlater.
  - rewrite lookup_nil in Hi. discriminate.
  - rewrite foldl_app. cbn [foldl].
    destruct (decide (i = length l)) as [-> | Hne].
    + rewrite lookup_app_r, Nat.sub_diag in Hi by lia. cbn in Hi. injection Hi as ->.
      unfold show_value. rewrite Hj. cbn [spans with_spans].
      apply list_lookup_insert_eq. rewrite show_all_length. exact Hlt.
    + assert (i < length l)%nat as Hil.
      { apply lookup_lt_Some in Hi. rewrite length_app in Hi. cbn in Hi. lia. }
      rewrite lookup_app_l in Hi by exact Hil.
      assert (value_span a <> Some j) as Ha.
      { apply (Hlater (length l)); [exact Hil |].
        rewrite lookup_app_r, Nat.sub_diag by lia. reflexivity. }
      unfold show_value at 1.
      destruct (value_span a) as [k |] eqn:Ek.
      * cbn [spans with_spans]. rewrite list_lookup_insert_ne by congruence.
        apply (IH w i s j Hi Hj Hlt).
        intros i' s' Hlt' Hi'. apply (Hlater i' s' Hlt').
        rewrite lookup_app_l by exact (lookup_lt_Some _ _ _ Hi'). exact Hi'.
      * apply (IH w i s j Hi Hj Hlt).
        intros i' s' Hlt' Hi'. apply (Hlater i' s' Hlt').
        rewrite lookup_app_l by exact (lookup_lt_Some _ _ _ Hi'). exact Hi'.
Qed.

(** ** The request body *)

Lemma collect_snoc l s :
  collect_modified (l ++ [s]) = record_value (collect_modified l) s.
Proof. unfold collect_modified. rewrite foldl_app. reflexivity. Qed.

(** X14. [modified] maps a key to the value of the last slider that goes by
    it, and holds nothing under a key no slider goes by; the key
    [__proto__] never gets an entry. *)
Theorem modified_holds_last_value l k :
  collect_modified l !! k = if String.eqb k "__proto__" then None else last_value k l.
Proof.
  unfold last_value.
  induction l as [| s l IH] using rev_ind.
  - cbn. destruct (String.eqb k "__proto__"); reflexivity.
  - rewrite collect_snoc, rev_app_distr. cbn [rev app List.find].
    unfold record_value.
    destruct (featKey s) as [k' |] eqn:Ek.
    + destruct (decide (k' = k)) as [-> | Hne].
      * rewrite bool_decide_eq_true_2 by reflexivity.
        destruct (String.eqb k "__proto__") eqn:Ep.
        -- rewrite IH. reflexivity.
        -- rewrite lookup_insert_eq. reflexivity.
      * rewrite bool_decide_eq_false_2 by congruence.
        destruct (String.eqb k' "__proto__"); [exact IH |].
        rewrite lookup_insert_ne by exact Hne. exact IH.
    + rewrite bool_decide_eq_false_2 by congruence. exact IH.
Qed.

(** ** What a cycle tells the user *)


(** ** Corrections *)

(** X16. A correction under a plain name goes to the first slider whose
    [data-feat] is the returned name: that slider takes the returned value
    and is normalised; every other slider, a later one with the same
    [data-feat] included, stays as it is.  A plain name that no slider
    carries changes nothing. *)
Theorem correction_hits_first_match v name x :
  plain name = true ->
  (forall i s,
     sliders v !! i = Some s -> dataset_feat s = Some name ->
     (forall j s', (j < i)%nat -> sliders v !! j = Some s' -> dataset_feat s' <> Some name) ->
     exists w,
       correct v (mkItem name x) = Completes w /\
       sliders w = <[i := applyLimitsFromMap (set_value (value_text x) s)]> (sliders v)) /\
  ((forall s, s ∈ sliders v -> dataset_feat s <> Some name) ->
   correct v (mkItem name x) = Completes v).
Proof.
  intros Hp. split.
  - intros i s Hi Hfeat Hfirst.
    rewrite (correct_plain v (mkItem name x) Hp). cbn [item_name item_value].
    assert (list_find (fun s0 => dataset_feat s0 = Some name) (sliders v) = Some (i, s)) as ->.
    { apply list_find_Some. split; [exact Hi |]. split; [exact Hfeat |].
      intros j y Hj Hlt. apply (Hfirst j y Hlt Hj). }
    eexists. split; [reflexivity |].
    unfold reflect. rewrite show_value_sliders. reflexivity.
  - intros Hnone.
    rewrite (correct_plain v (mkItem name x) Hp). cbn [item_name item_value].
    assert (list_find (fun s0 => dataset_feat s0 = Some name) (sliders v) = None) as ->.
    { apply list_find_None. apply Forall_forall. exact Hnone. }
    reflexivity.
Qed.

Lemma correction_hits_first_match_witness :
  plain "age" = true /\
  exists w,
    correct two_ages (mkItem "age" (VNum (of_Z 61))) = Completes w /\
    sliders w
    = [ mkInput (Some "age") "a1" "" "18" "100" "1" "61" (Some 0%nat);
        mkInput (Some "age") "a2" "" "18" "100" "1" "50" (Some 1%nat) ].
Proof.
  assert (plain "age" = true) as Hp by reflexivity.
  split; [exact Hp |].
  destruct (proj1 (correction_hits_first_match two_ages "age" (VNum (of_Z 61)) Hp)
              0%nat (mkInput (Some "age") "a1" "" "18" "100" "1" "40" (Some 0%nat))
              eq_refl eq_refl) as (w & E & Hw).
  { intros j s' Hlt. lia. }
  exists w. split; [exact E | exact Hw].
Defined.

(** X17. A returned value outside the canonical range of the slider it goes to
    is clamped: after the correction the slider holds a number of the
    canonical range, and its readout shows it. *)
Theorem correction_is_clamped v it i s lo hi st :
  find_slider (item_name it) (sliders v) = Some (i, s) ->
  resolves s lo hi st ->
  exists w s',
    correct v it = Completes w /\
    sliders w !! i = Some s' /\
    leb lo (parseFloat (input_value s')) = true /\
    leb (parseFloat (input_value s')) hi = true /\
    (forall j, value_span s = Some j -> (j < length (spans v))%nat ->
       spans w !! j = Some (input_value s')).
Proof.
  intros Hfind Hres. unfold find_slider in Hfind. unfold correct.
  destruct (selector_of (item_name it)) as [alts | |]; try discriminate.
  rewrite Hfind. unfold reflect.
  set (s0 := set_value (value_text (item_value it)) s).
  assert (resolves s0 lo hi st) as Hres0 by exact Hres.
  eexists. exists (applyLimitsFromMap s0). split; [reflexivity |].
  apply list_find_Some in Hfind as (Hi & _ & _).
  destruct (applyLimits_number s0 lo hi st Hres0) as (c & Ec & H1 & H2 & _).
  pose proof (parseFloat_to_string c) as Sc.
  split; [| split; [| split]].
  - rewrite show_value_sliders. cbn [sliders with_sliders].
    apply list_lookup_insert_eq, (lookup_lt_Some _ _ _ Hi).
  - rewrite Ec, (leb_same _ _ _ _ (same_refl _) Sc). exact H1.
  - rewrite Ec, (leb_same _ _ _ _ Sc (same_refl _)). exact H2.
  - intros j Hj Hlt. unfold show_value.
    destruct (applyLimits_identity s0) as (_ & _ & _ & ->).
    change (value_span s0) with (value_span s). rewrite Hj.
    cbn [spans with_spans with_sliders]. apply list_lookup_insert_eq, Hlt.
Qed.

Lemma correction_is_clamped_witness :
  find_slider "age" (sliders two_ages)
    = Some (0%nat, mkInput (Some "age") "a1" "" "18" "100" "1" "40" (Some 0%nat)) /\
  exists w s',
    correct two_ages (mkItem "age" (VNum (of_Z 140))) = Completes w /\
    sliders w !! 0%nat = Some s' /\
    leb (parseFloat (input_value s')) (of_Z 100) = true.
Proof.
  assert (find_slider "age" (sliders two_ages)
          = Some (0%nat, mkInput (Some "age") "a1" "" "18" "100" "1" "40" (Some 0%nat))) as Hf
    by (vm_compute; reflexivity).
  split; [exact Hf |].
  destruct (correction_is_clamped two_ages (mkItem "age" (VNum (of_Z 140))) 0%nat _
              (of_Z 18) (of_Z 100) one Hf eq_refl) as (w & s' & E & H1 & _ & H3 & _).
  exists w, s'. split; [exact E |]. split; assumption.
Defined.

(** X30. A returned name whose first special character is a line break
    leaves no selector: [querySelector] throws, the loop over the
    corrections ends there, and the cycle goes through the error path with
    the result, the suggestions and the corrections before that name
    already on the page. *)
Theorem line_break_ends_in_catch status d v l1 a c b x l2 :
  top_features_values d = Some (l1 ++ mkItem (a +:+ String c b) x :: l2)%list ->
  Forall (fun it => plain (item_name it) = true) l1 ->
  plain a = true -> is_line_break c = true ->
  exists w,
    forEach l1 (show_tips d (show_result d v)) = Completes w /\
    click_end (Response true status (inr d)) v
    = Some (with_button (mkButton false "Update Prediction") (failed SyntaxError w)).
Proof.
  intros Hd Hp Ha Hc.
  destruct (forEach_plain l1 (show_tips d (show_result d v)) Hp) as (w & E).
  exists w. split; [exact E |].
  unfold click_end. cbn [try_block]. unfold patch. rewrite Hd.
  assert (forall l u, forEach l u = Completes w ->
            forEach (l ++ mkItem (a +:+ String c b) x :: l2) u = Throws SyntaxError w) as H.
  { clear - Ha Hc. induction l as [| it l IH]; intros u Hu; cbn [forEach app] in *.
    - injection Hu as ->. unfold correct. cbn [item_name].
      rewrite (selector_of_broken a c b Ha Hc). reflexivity.
    - destruct (correct u it) as [u' | |]; try discriminate. apply IH, Hu. }
  rewrite (H l1 _ E). reflexivity.
Qed.

Lemma line_break_ends_in_catch_witness :
  plain "b" = true /\ is_line_break "010"%char = true /\
  click_end
    (Response true 200
       (inr (mkData (Some "High") None None None
               (Some [mkItem "age" (VNum (of_Z 61)); mkItem broken_name (VNum (of_Z 30))]))))
    two_ages
  = Some (mkView
            [ mkInput (Some "age") "a1" "" "18" "100" "1" "61" (Some 0%nat);
              mkInput (Some "age") "a2" "" "18" "100" "1" "50" (Some 1%nat) ]
            ["61"; "50"] (mkButton false "Update Prediction") (Some "High") (Some [])
            [ConsoleError "Update failed: SyntaxError";
             Alert "Failed to update prediction. Check server logs."]).
Proof.
  assert (plain "b" = true) as Ha by reflexivity.
  assert (is_line_break "010"%char = true) as Hc by reflexivity.
  split; [exact Ha |]. split; [exact Hc |].
  destruct (line_break_ends_in_catch 200
              (mkData (Some "High") None None None
                 (Some [mkItem "age" (VNum (of_Z 61)); mkItem broken_name (VNum (of_Z 30))]))
              two_ages [mkItem "age" (VNum (of_Z 61))] "b" "010"%char "mi" (VNum (of_Z 30)) []
              eq_refl ltac:(repeat constructor) Ha Hc) as (w & E & H).
  rewrite H. vm_compute in E. injection E as <-. reflexivity.
Defined.

End CycleFacts.

(* ===================================================================== *)
(** * Properties of panels, error lines and listeners *)
(* ===================================================================== *)

Module PageFacts.
Import Navigator NavigatorFacts.

Lemma page_eq a b :
  panels a = panels b -> tabs a = tabs b -> fields a = fields b ->
  smalls a = smalls b -> ids a = ids b -> form_fields a = form_fields b ->
  smokerStatusEl a = smokerStatusEl b -> cigsPerDayEl a = cigsPerDayEl b ->
  focused a = focused b -> a = b.
Proof. destruct a, b. cbn. intros. congruence. Qed.

Lemma skeleton_page_eq a b :
  skeleton a = skeleton b -> fields a = fields b -> smalls a = smalls b -> a = b.
Proof.
  unfold skeleton. intros H Hf Hs. apply page_eq; congruence.
Qed.

(** ** [showError] and [clearError] on the page *)

Lemma showError_fields el msg st f :
  fields st !! el = Some f ->
  fields (showError el msg st) = <[el := set_invalid true f]> (fields st).
Proof.
  intros E. unfold showError. rewrite E.
  destruct (field_small f) as [j |]; [| reflexivity].
  destruct (smalls _ !! j); reflexivity.
Qed.

Lemma showError_smalls el msg st f :
  fields st !! el = Some f ->
  smalls (showError el msg st)
  = match field_small f with
    | Some j => match smalls st !! j with
                | Some sm => <[j := mkSmall msg (saved_text sm) true]> (smalls st)
                | None => smalls st
                end
    | None => smalls st
    end.
Proof.
  intros E. unfold showError. rewrite E.
  destruct (field_small f) as [j |]; [| reflexivity].
  cbn [smalls with_fields].
  destruct (smalls st !! j) as [sm |]; reflexivity.
Qed.

Lemma clearError_fields el st f :
  fields st !! el = Some f ->
  fields (clearError el st) = <[el := set_invalid false f]> (fields st).
Proof.
  intros E. unfold clearError. rewrite E.
  destruct (field_small f) as [j |]; [| reflexivity].
  cbn [smalls with_fields].
  destruct (smalls st !! j) as [sm |]; [| reflexivity].
  destruct (truthy (originalText sm)); reflexivity.
Qed.

(** The lines after [validateInput]. *)
Lemma validateInput_smalls el st f :
  fields st !! el = Some f ->
  smalls (validateInput el st).2
  = match field_small f with
    | Some j => match smalls st !! j with
                | Some sm => <[j := line_after (field_ok st el) f sm]> (smalls st)
                | None => smalls st
                end
    | None => smalls st
    end.
Proof.
  intros E. unfold validateInput.
  pose proof (clearError_fields el st f E) as Hcf.
  pose proof (clearError_smalls el st f E) as Hcs.
  pose proof (lookup_lt_Some _ _ _ E) as Hlt.
  assert (fields (clearError el st) !! el = Some (set_invalid false f)) as E1
    by (rewrite Hcf; apply list_lookup_insert_eq, Hlt).
  rewrite E1. unfold field_ok. rewrite E. cbn [field_disabled set_invalid validity].
  destruct (field_disabled f); cbn [orb snd].
  { rewrite Hcs. unfold line_after. reflexivity. }
  destruct (valid (validity f)); cbn [negb snd].
  { rewrite Hcs. unfold line_after. reflexivity. }
  rewrite (showError_smalls el _ _ _ E1), Hcs. cbn [field_small set_invalid].
  destruct (field_small f) as [j |]; [| reflexivity].
  destruct (smalls st !! j) as [sm |] eqn:Ej.
  - rewrite list_lookup_insert_eq by exact (lookup_lt_Some _ _ _ Ej).
    rewrite list_insert_insert_eq. unfold line_after. f_equal.
    unfold saved_text, restored.
    destruct (truthy (originalText sm)) eqn:Et; cbn [originalText innerText];
      rewrite ?Et; reflexivity.
  - rewrite Ej. reflexivity.
Qed.

(** ** Showing a panel *)

(** X18. After [showPanelById] a panel is active exactly if it carries the
    identifier, and a tab exactly if it points to it; [aria-hidden] is the
    opposite of the active mark on every panel and [aria-selected] equals
    it on every tab.  Identifiers, targets and the controls of the panels
    are as before. *)
Theorem showPanelById_marks t st :
  Forall (fun p => (panel_active p = true <-> Some (panel_id p) = t) /\
                   aria_hidden p = Some (string_of_bool (negb (panel_active p))))
         (panels (showPanelById t st)) /\
  Forall (fun b => (tab_active b = true <-> tab_target b = t) /\
                   aria_selected b = Some (string_of_bool (tab_active b)))
         (tabs (showPanelById t st)) /\
  map panel_id (panels (showPanelById t st)) = map panel_id (panels st) /\
  map panel_fields (panels (showPanelById t st)) = map panel_fields (panels st) /\
  map tab_target (tabs (showPanelById t st)) = map tab_target (tabs st).
Proof.
  destruct (showPanelById_frame t st) as (-> & -> & _ & _).
  repeat split.
  - induction (panels st) as [| p ps IH]; constructor; [| exact IH].
    cbn [show_panel panel_active panel_id aria_hidden].
    split; [apply bool_decide_eq_true | reflexivity].
  - induction (tabs st) as [| b bs IH]; constructor; [| exact IH].
    cbn [show_tab tab_active tab_target aria_selected].
    split; [apply bool_decide_eq_true | reflexivity].
  - induction (panels st) as [| p ps IH]; [reflexivity |]. cbn. now rewrite IH.
  - induction (panels st) as [| p ps IH]; [reflexivity |]. cbn. now rewrite IH.
  - induction (tabs st) as [| b bs IH]; [reflexivity |]. cbn. now rewrite IH.
Qed.

Lemma show_panel_twice t t' ps :
  map (show_panel t') (map (show_panel t) ps) = map (show_panel t') ps.
Proof. induction ps as [| p ps IH]; [reflexivity |]. cbn. now rewrite IH. Qed.

Lemma show_tab_twice t t' ts :
  map (show_tab t') (map (show_tab t) ts) = map (show_tab t') ts.
Proof. induction ts as [| b bs IH]; [reflexivity |]. cbn. now rewrite IH. Qed.

Lemma showPanelById_rest t st :
  ids (showPanelById t st) = ids st /\ form_fields (showPanelById t st) = form_fields st /\
  smokerStatusEl (showPanelById t st) = smokerStatusEl st /\
  cigsPerDayEl (showPanelById t st) = cigsPerDayEl st.
Proof.
  unfold showPanelById. destruct (String.eqb _ ""); [easy |].
  destruct (getElementById _ _) as [[i |] |]; try easy.
  unfold focus. cbn [fields with_panels_tabs].
  destruct (fields st !! i) as [f |]; [| easy].
  destruct (field_disabled f); easy.
Qed.

(** The focus after [showPanelById]. *)
Lemma showPanelById_focused t st :
  focused (showPanelById t st)
  = if String.eqb (default "undefined" t) "" then focused st
    else match getElementById (ids st) (default "undefined" t) with
         | Some (Some i) =>
             match fields st !! i with
             | Some f => if field_disabled f then focused st else Some i
             | None => focused st
             end
         | _ => focused st
         end.
Proof.
  unfold showPanelById. destruct (String.eqb _ ""); [reflexivity |].
  cbn [ids with_panels_tabs].
  destruct (getElementById _ _) as [[i |] |]; try reflexivity.
  unfold focus. cbn [fields with_panels_tabs].
  destruct (fields st !! i) as [f |]; [| reflexivity].
  destruct (field_disabled f); reflexivity.
Qed.

(** X19. Showing the same panel twice is showing it once; and of two calls the
    later one decides which panels and tabs are active. *)
Theorem showPanelById_again t t' st :
  showPanelById t (showPanelById t st) = showPanelById t st /\
  panels (showPanelById t' (showPanelById t st)) = panels (showPanelById t' st) /\
  tabs (showPanelById t' (showPanelById t st)) = tabs (showPanelById t' st).
Proof.
  assert (forall a b, panels (showPanelById a (showPanelById b st))
                      = panels (showPanelById a st) /\
                      tabs (showPanelById a (showPanelById b st))
                      = tabs (showPanelById a st)) as Hpt.
  { intros a b.
    destruct (showPanelById_frame a (showPanelById b st)) as (-> & -> & _ & _).
    destruct (showPanelById_frame b st) as (-> & -> & _ & _).
    destruct (showPanelById_frame a st) as (-> & -> & _ & _).
    rewrite show_panel_twice, show_tab_twice. easy. }
  split; [| apply Hpt].
  destruct (Hpt t t) as [Hp Ht].
  destruct (showPanelById_frame t (showPanelById t st)) as (_ & _ & Hf & Hs).
  destruct (showPanelById_rest t (showPanelById t st)) as (Hi & Hff & Hsm & Hc).
  apply page_eq; try assumption.
  rewrite showPanelById_focused.
  destruct (showPanelById_rest t st) as (-> & _).
  destruct (showPanelById_frame t st) as (_ & _ & -> & _).
  rewrite (showPanelById_focused t st).
  destruct (String.eqb _ ""); [reflexivity |].
  destruct (getElementById _ _) as [[i |] |]; try reflexivity.
  destruct (fields st !! i) as [f |]; [| reflexivity].
  destruct (field_disabled f); reflexivity.
Qed.

(** X20. [showTabIndex] does nothing for an index outside the list of panels;
    for an index inside it shows the panel at that index, which is active
    and not hidden afterwards. *)
Theorem showTabIndex_spec index st :
  ((index < 0 \/ Z.of_nat (length (panels st)) <= index)%Z -> showTabIndex index st = st) /\
  (forall p, (0 <= index)%Z -> panels st !! Z.to_nat index = Some p ->
     showTabIndex index st = showPanelById (Some (panel_id p)) st /\
     panels (showTabIndex index st) !! Z.to_nat index
     = Some (mkPanel (panel_id p) true (Some "false") (panel_fields p))).
Proof.
  unfold showTabIndex. split.
  - intros H.
    destruct (Z.ltb_spec index 0), (Z.leb_spec (Z.of_nat (length (panels st))) index);
      try reflexivity; lia.
  - intros p H0 Hp. pose proof (lookup_lt_Some _ _ _ Hp) as Hlt.
    destruct (Z.ltb_spec index 0), (Z.leb_spec (Z.of_nat (length (panels st))) index);
      try lia.
    cbn [orb]. rewrite Hp. split; [reflexivity |].
    rewrite (proj1 (showPanelById_frame _ st)).
    rewrite list_lookup_fmap_Some_2 with (x := p) by exact Hp.
    unfold show_panel. rewrite bool_decide_eq_true_2 by reflexivity. reflexivity.
Qed.

(** ** Error lines *)

(** X21. Showing an error on a control and clearing it again brings its line
    back to the text it had (or had saved) before, without the error
    class, and removes the mark; this holds when the line has a text to go
    back to.  The original text is saved on the line. *)
Theorem clearError_undoes_showError el msg st f j sm :
  fields st !! el = Some f -> field_small f = Some j -> smalls st !! j = Some sm ->
  has_text sm = true ->
  smalls (clearError el (showError el msg st)) !! j
  = Some (mkSmall (default "" (saved_text sm)) (saved_text sm) false) /\
  (truthy (originalText sm) = false ->
   innerText <$> smalls (clearError el (showError el msg st)) !! j = Some (innerText sm)) /\
  fields (clearError el (showError el msg st)) = <[el := set_invalid false f]> (fields st).
Proof.
  intros E Ej Es Ht.
  pose proof (lookup_lt_Some _ _ _ E) as Hlt.
  pose proof (lookup_lt_Some _ _ _ Es) as Hlj.
  assert (fields (showError el msg st) !! el = Some (set_invalid true f)) as E1
    by (rewrite (showError_fields _ _ _ _ E); apply list_lookup_insert_eq, Hlt).
  assert (smalls (showError el msg st) !! j = Some (mkSmall msg (saved_text sm) true)) as Es1
    by (rewrite (showError_smalls _ _ _ _ E), Ej, Es; apply list_lookup_insert_eq, Hlj).
  assert (truthy (saved_text sm) = true) as Hsv.
  { unfold has_text in Ht. unfold saved_text.
    destruct (truthy (originalText sm)) eqn:Et; [exact Et |]. exact Ht. }
  assert (smalls (clearError el (showError el msg st)) !! j
          = Some (mkSmall (default "" (saved_text sm)) (saved_text sm) false)) as Hres.
  { rewrite (clearError_smalls _ _ _ E1). cbn [field_small set_invalid].
    rewrite Ej, Es1. unfold restored. cbn [originalText]. rewrite Hsv.
    apply list_lookup_insert_eq.
    rewrite (showError_smalls _ _ _ _ E), Ej, Es, length_insert. exact Hlj. }
  split; [exact Hres |]. split.
  - intros Hno. rewrite Hres. unfold saved_text. rewrite Hno. reflexivity.
  - rewrite (clearError_fields _ _ _ E1), (showError_fields _ _ _ _ E).
    apply list_insert_insert_eq.
Qed.

Lemma clearError_undoes_showError_witness :
  smalls wizard !! 0%nat = Some (mkSmall "Years" None false) /\
  smalls (clearError 0%nat (showError 0%nat "This field is required." wizard)) !! 0%nat
  = Some (mkSmall "Years" (Some "Years") false).
Proof.
  split; [reflexivity |].
  exact (proj1 (clearError_undoes_showError 0%nat "This field is required." wizard
                  _ 0%nat _ eq_refl eq_refl eq_refl eq_refl)).
Defined.

(** X22. On a line whose text is empty and that has no saved text, an error is
    never cleared: [clearError] removes the mark of the control but leaves
    the message and the error class on the line, and showing another error
    saves the first message as the "original" text. *)
Theorem empty_line_keeps_error el msg msg' st f j sm :
  fields st !! el = Some f -> field_small f = Some j -> smalls st !! j = Some sm ->
  has_text sm = false ->
  smalls (clearError el (showError el msg st)) !! j = Some (mkSmall msg (Some "") true) /\
  (invalid <$> fields (clearError el (showError el msg st)) !! el) = Some false /\
  smalls (showError el msg' (showError el msg st)) !! j = Some (mkSmall msg' (Some msg) true).
Proof.
  intros E Ej Es Ht.
  pose proof (lookup_lt_Some _ _ _ E) as Hlt.
  pose proof (lookup_lt_Some _ _ _ Es) as Hlj.
  unfold has_text in Ht. apply Bool.orb_false_iff in Ht as [Ht Hi].
  apply Bool.negb_false_iff, String.eqb_eq in Hi.
  assert (saved_text sm = Some "") as Hsv by (unfold saved_text; rewrite Ht; congruence).
  assert (fields (showError el msg st) !! el = Some (set_invalid true f)) as E1
    by (rewrite (showError_fields _ _ _ _ E); apply list_lookup_insert_eq, Hlt).
  assert (smalls (showError el msg st) !! j = Some (mkSmall msg (Some "") true)) as Es1
    by (rewrite (showError_smalls _ _ _ _ E), Ej, Es, Hsv; apply list_lookup_insert_eq, Hlj).
  assert (j < length (smalls (showError el msg st)))%nat as Hlj1
    by exact (lookup_lt_Some _ _ _ Es1).
  repeat split.
  - rewrite (clearError_smalls _ _ _ E1). cbn [field_small set_invalid].
    rewrite Ej, Es1. unfold restored. cbn [originalText truthy String.eqb negb].
    rewrite list_lookup_insert_eq by exact Hlj1. reflexivity.
  - rewrite (clearError_fields _ _ _ E1).
    rewrite list_lookup_insert_eq; [reflexivity |].
    rewrite (showError_fields _ _ _ _ E), length_insert. exact Hlt.
  - rewrite (showError_smalls _ _ _ _ E1). cbn [field_small set_invalid].
    rewrite Ej, Es1. rewrite list_lookup_insert_eq by exact Hlj1.
    unfold saved_text. cbn [originalText innerText truthy String.eqb negb]. reflexivity.
Qed.

Lemma empty_line_keeps_error_witness :
  smalls bare_line !! 0%nat = Some (mkSmall "" None false) /\
  smalls (clearError 0%nat (showError 0%nat "This field is required." bare_line)) !! 0%nat
  = Some (mkSmall "This field is required." (Some "") true).
Proof.
  split; [reflexivity |].
  exact (proj1 (empty_line_keeps_error 0%nat "This field is required." "" bare_line
                  _ 0%nat _ eq_refl eq_refl eq_refl eq_refl)).
Defined.

(** ** What validating one control does *)

Lemma skeleton_frame st st' :
  skeleton st' = skeleton st ->
  panels st' = panels st /\ tabs st' = tabs st /\ focused st' = focused st /\
  ids st' = ids st /\ form_fields st' = form_fields st.
Proof. unfold skeleton. intros H. repeat split; congruence. Qed.

(** X23. [validateInput] changes nothing but the [invalid] mark of the control
    it is given and the error line of that control: panels, tabs and focus
    stay, every control keeps its value, its constraints, its verdict and
    its enabled state, and every other line keeps its text. *)
Theorem validateInput_frame el st :
  panels (validateInput el st).2 = panels st /\
  tabs (validateInput el st).2 = tabs st /\
  focused (validateInput el st).2 = focused st /\
  (forall k f, fields st !! k = Some f ->
     exists f', fields (validateInput el st).2 !! k = Some f' /\
                set_invalid false f' = set_invalid false f /\
                (k <> el -> f' = f)) /\
  (forall k, (field_small <$> fields st !! el) <> Some (Some k) ->
     smalls (validateInput el st).2 !! k = smalls st !! k).
Proof.
  destruct (skeleton_frame _ _ (skeleton_validateInput el st)) as (Hp & Ht & Hf & _).
  repeat split; try assumption.
  - intros k f Hk. rewrite validateInput_fields.
    destruct (fields st !! el) as [fe |] eqn:E; [| exists f; auto].
    destruct (decide (k = el)) as [-> | Hne].
    + rewrite list_lookup_insert_eq by exact (lookup_lt_Some _ _ _ E).
      assert (fe = f) as -> by congruence.
      eexists. split; [reflexivity |]. split; [reflexivity | congruence].
    + rewrite list_lookup_insert_ne by congruence. exists f. auto.
  - intros k Hk. destruct (fields st !! el) as [fe |] eqn:E.
    + rewrite (validateInput_smalls _ _ _ E).
      destruct (field_small fe) as [j |] eqn:Ej; [| reflexivity].
      destruct (smalls st !! j) as [sm |]; [| reflexivity].
      apply list_lookup_insert_ne. intros ->. apply Hk. cbn. congruence.
    + unfold validateInput, clearError. rewrite E. cbn. rewrite E. reflexivity.
Qed.

(** X24. On an enabled control [validateInput] returns the browser's verdict.
    A valid control ends without mark and with its line restored; an
    invalid one ends marked, its line showing the message for its failure
    with the error class, the original text saved. *)
Theorem validateInput_enabled el st f :
  fields st !! el = Some f -> field_disabled f = false ->
  (validateInput el st).1 = valid (validity f) /\
  fields (validateInput el st).2 !! el = Some (set_invalid (negb (valid (validity f))) f) /\
  (forall j sm, field_small f = Some j -> smalls st !! j = Some sm ->
     smalls (validateInput el st).2 !! j
     = Some (if valid (validity f) then restored sm
             else mkSmall (error_text f) (saved_text sm) true)).
Proof.
  intros E Hd.
  assert (field_ok st el = valid (validity f)) as Hok
    by (unfold field_ok; rewrite E, Hd; reflexivity).
  repeat split.
  - rewrite validateInput_fst. exact Hok.
  - rewrite validateInput_fields, E, Hok.
    apply list_lookup_insert_eq, (lookup_lt_Some _ _ _ E).
  - intros j sm Ej Es. rewrite (validateInput_smalls _ _ _ E), Ej, Es, Hok.
    apply list_lookup_insert_eq, (lookup_lt_Some _ _ _ Es).
Qed.

Lemma validateInput_enabled_witness :
  fields two_empty !! 0%nat = Some (plain_field missing (Some 0%nat) (Some 0%nat)) /\
  smalls (validateInput 0%nat two_empty).2 !! 0%nat
  = Some (mkSmall "This field is required." (Some "Years") true).
Proof.
  split; [reflexivity |].
  exact (proj2 (proj2 (validateInput_enabled 0%nat two_empty _ eq_refl eq_refl))
           0%nat _ eq_refl eq_refl).
Defined.

Lemma line_after_twice ok f f' sm :
  error_text f' = error_text f ->
  ok = true \/ has_text sm = true ->
  line_after ok f' (line_after ok f sm) = line_after ok f sm.
Proof.
  intros He H. unfold line_after. destruct ok.
  - unfold restored. destruct (truthy (originalText sm)) eqn:Et.
    + cbn [originalText]. rewrite Et. reflexivity.
    + rewrite Et. reflexivity.
  - destruct H as [H | H]; [discriminate |].
    rewrite He. f_equal. unfold saved_text at 1. cbn [originalText innerText].
    replace (truthy (saved_text sm)) with true; [reflexivity |].
    unfold has_text in H. unfold saved_text.
    destruct (truthy (originalText sm)) eqn:Et; [now rewrite Et |].
    cbn [orb] in H. cbn [truthy]. now rewrite H.
Qed.

(** X25. Validating a control a second time changes nothing, provided the
    control is accepted or its line has a text to go back to. *)
Theorem validateInput_twice el st f :
  fields st !! el = Some f ->
  (field_ok st el = true \/
   forall j sm, field_small f = Some j -> smalls st !! j = Some sm -> has_text sm = true) ->
  validateInput el (validateInput el st).2 = validateInput el st.
Proof.
  intros E H.
  pose proof (skeleton_validateInput el st) as Hsk.
  pose proof (lookup_lt_Some _ _ _ E) as Hlt.
  set (b := field_ok st el) in *.
  assert (fields (validateInput el st).2 !! el = Some (set_invalid (negb b) f)) as E1
    by (rewrite validateInput_fields, E; apply list_lookup_insert_eq, Hlt).
  apply injective_projections.
  - rewrite !validateInput_fst. apply skeleton_field_ok, Hsk.
  - apply skeleton_page_eq.
    + rewrite skeleton_validateInput. reflexivity.
    + rewrite (validateInput_fields el (validateInput el st).2), E1.
      rewrite (skeleton_field_ok st _ el Hsk). fold b.
      rewrite validateInput_fields, E. fold b.
      rewrite list_insert_insert_eq. reflexivity.
    + rewrite (validateInput_smalls _ _ _ E1). cbn [field_small set_invalid].
      rewrite (skeleton_field_ok st _ el Hsk). fold b.
      rewrite (validateInput_smalls _ _ _ E). fold b.
      destruct (field_small f) as [j |] eqn:Ej; [| reflexivity].
      destruct (smalls st !! j) as [sm |] eqn:Es.
      * rewrite list_lookup_insert_eq by exact (lookup_lt_Some _ _ _ Es).
        rewrite list_insert_insert_eq. f_equal.
        apply line_after_twice; [reflexivity |].
        destruct H as [H | H]; [now left | right; apply (H j sm eq_refl Es)].
      * rewrite Es. reflexivity.
Qed.

Lemma validateInput_twice_witness :
  fields two_empty !! 0%nat = Some (plain_field missing (Some 0%nat) (Some 0%nat)) /\
  validateInput 0%nat (validateInput 0%nat two_empty).2 = validateInput 0%nat two_empty.
Proof.
  split; [reflexivity |].
  apply (validateInput_twice 0%nat two_empty _ eq_refl).
  right. intros j sm [= <-] [= <-]. reflexivity.
Defined.

(** ** What validating a panel shows *)

Lemma checked_all st l : forallb (field_ok st) l = true -> checked st l = l.
Proof.
  induction l as [| a l IH]; [reflexivity |].
  cbn [forallb checked]. intros [Ha Hl]%andb_prop. rewrite Ha, (IH Hl). reflexivity.
Qed.

Lemma checked_stops st l :
  forallb (field_ok st) l = false ->
  exists pre el, checked st l = (pre ++ [el])%list /\ field_ok st el = false /\
                 first_rejected st l = Some el /\ In el l.
Proof.
  unfold first_rejected.
  induction l as [| a l IH]; [discriminate |].
  cbn [forallb checked List.find]. destruct (field_ok st a) eqn:Ea; cbn [andb negb].
  - intros H. destruct (IH H) as (pre & el & -> & Hel & Hf & Hin).
    exists (a :: pre), el. repeat split; try assumption. now right.
  - intros _. exists [], a. repeat split; try assumption. now left.
Qed.

Lemma validateInput_smalls_length el st :
  length (smalls (validateInput el st).2) = length (smalls st).
Proof.
  destruct (fields st !! el) as [f |] eqn:E.
  - rewrite (validateInput_smalls _ _ _ E).
    destruct (field_small f) as [j |]; [| reflexivity].
    destruct (smalls st !! j); [apply length_insert | reflexivity].
  - unfold validateInput, clearError. rewrite E. cbn. rewrite E. reflexivity.
Qed.

Lemma validate_all_smalls_length l : forall s,
  length (smalls (validate_all l s)) = length (smalls s).
Proof.
  induction l as [| a l IH]; intros s; [reflexivity |].
  change (validate_all (a :: l) s) with (validate_all l (validateInput a s).2).
  rewrite IH. apply validateInput_smalls_length.
Qed.

Lemma unmarked_error_text f f' :
  set_invalid false f' = set_invalid false f -> error_text f' = error_text f.
Proof. destruct f, f'. cbn. intros [= -> -> -> -> -> -> -> -> ->]. reflexivity. Qed.

(** The state after validating a list that ends in a rejected control. *)
Lemma rejected_last st pre el f :
  fields st !! el = Some f -> field_ok st el = false ->
  let st' := validate_all (pre ++ [el]) st in
  fields st' !! el = Some (set_invalid true f) /\
  (forall j, field_small f = Some j -> (j < length (smalls st))%nat ->
     exists sm', smalls st' !! j = Some sm' /\
                 innerText sm' = error_text f /\ error_message sm' = true).
Proof.
  intros E Hok st'. subst st'.
  split.
  - rewrite (validate_all_fields st _ st el eq_refl), E, Hok.
    rewrite bool_decide_eq_true_2 by (apply elem_of_app; right; left). reflexivity.
  - intros j Ej Hlt. unfold validate_all. rewrite foldl_app. cbn [foldl].
    fold (validate_all pre st). set (s := validate_all pre st).
    pose proof (skeleton_validate_all pre st) as Hsk. fold s in Hsk.
    pose proof (skeleton_lookup st s el Hsk) as Hl. rewrite E in Hl.
    destruct (fields s !! el) as [fs |] eqn:Es; [| discriminate].
    cbn in Hl.
    assert (set_invalid false fs = set_invalid false f) as Hl' by congruence.
    assert (field_small fs = Some j) as Ejs
      by (rewrite <- Ej; exact (f_equal field_small Hl')).
    assert (j < length (smalls s))%nat as Hlt'
      by (subst s; rewrite validate_all_smalls_length; exact Hlt).
    destruct (lookup_lt_is_Some_2 _ _ Hlt') as [sm Hsm].
    rewrite (validateInput_smalls _ _ _ Es), Ejs, Hsm.
    rewrite (skeleton_field_ok st s el Hsk), Hok.
    rewrite list_lookup_insert_eq by exact Hlt'.
    eexists. split; [reflexivity |]. split; [| reflexivity].
    cbn. apply unmarked_error_text, Hl'.
Qed.

(** X26. When [validatePanel] accepts a panel, none of its enabled controls is
    marked invalid afterwards.  When it rejects it, the first enabled
    control that is invalid is marked, and its line (if it has one) shows
    the message of that control with the error class. *)
Theorem validatePanel_outcome p st pn :
  panels st !! p = Some pn ->
  ((validatePanel p st).1 = true ->
   forall el f, In el (panel_fields pn) -> fields st !! el = Some f ->
     field_disabled f = false ->
     fields (validatePanel p st).2 !! el = Some (set_invalid false f)) /\
  ((validatePanel p st).1 = false ->
   exists el f,
     first_rejected st (enabled_fields st (panel_fields pn)) = Some el /\
     fields st !! el = Some f /\ field_disabled f = false /\ valid (validity f) = false /\
     fields (validatePanel p st).2 !! el = Some (set_invalid true f) /\
     (forall j, field_small f = Some j -> (j < length (smalls st))%nat ->
        exists sm', smalls (validatePanel p st).2 !! j = Some sm' /\
                    innerText sm' = error_text f /\ error_message sm' = true)).
Proof.
  intros Hp. unfold validatePanel. rewrite Hp.
  set (l := enabled_fields st (panel_fields pn)).
  rewrite (every_validateInput st l st eq_refl). cbn [fst snd].
  split.
  - intros Hall el f Hin Ef Hd. rewrite (checked_all _ _ Hall).
    assert (In el l) as Hl.
    { apply filter_In. split; [exact Hin |]. unfold is_enabled. now rewrite Ef, Hd. }
    rewrite (validate_all_fields st _ st el eq_refl), Ef.
    rewrite bool_decide_eq_true_2 by (apply list_elem_of_In; exact Hl).
    rewrite forallb_forall in Hall. rewrite (Hall el Hl). reflexivity.
  - intros Hsome.
    destruct (checked_stops st l Hsome) as (pre & el & Hc & Hok & Hfirst & Hin).
    apply filter_In in Hin as [_ Hen]. unfold is_enabled in Hen.
    destruct (fields st !! el) as [f |] eqn:Ef; [| discriminate].
    destruct (field_disabled f) eqn:Hd; [discriminate |].
    assert (valid (validity f) = false) as Hv
      by (unfold field_ok in Hok; rewrite Ef, Hd in Hok; exact Hok).
    exists el, f. rewrite Hc.
    destruct (rejected_last st pre el f Ef Hok) as [H1 H2].
    repeat split; assumption.
Qed.

Lemma validatePanel_outcome_witness :
  panels two_empty !! 0%nat = Some (mkPanel "step1" true (Some "false") [0%nat; 1%nat]) /\
  exists el f, first_rejected two_empty (enabled_fields two_empty [0%nat; 1%nat]) = Some el /\
               fields (validatePanel 0%nat two_empty).2 !! el = Some (set_invalid true f).
Proof.
  split; [reflexivity |].
  destruct (proj2 (validatePanel_outcome 0%nat two_empty _ eq_refl) eq_refl)
    as (el & f & H1 & _ & _ & _ & H2 & _).
  exists el, f. split; assumption.
Defined.

(** ** Submitting and moving on *)

Lemma submit_loop_fst st l : forall s,
  skeleton s = skeleton st ->
  (submit_loop l s).1 = negb (forallb (field_ok st) l) /\
  (forallb (field_ok st) l = true -> skeleton (submit_loop l s).2 = skeleton st).
Proof.
  induction l as [| el l IH]; intros s Hs; [easy |].
  cbn [submit_loop forallb].
  pose proof (validateInput_fst el s) as Hok.
  pose proof (skeleton_validateInput el s) as Hsk.
  destruct (validateInput el s) as [ok s1]. cbn [fst snd] in Hok, Hsk.
  rewrite Hs in Hsk. rewrite (skeleton_field_ok st s el Hs) in Hok. subst ok.
  destruct (field_ok st el); cbn [andb negb fst].
  - apply IH, Hsk.
  - split; [reflexivity | discriminate].
Qed.

(** X27. The submit listener cancels the submission exactly when some enabled
    control of the form is invalid.  If none is, panels, tabs and focus
    stay as they are; otherwise the panel that holds the first invalid
    control is shown. *)
Theorem submit_outcome st :
  ((submit st).1 = true <->
   exists el f, In el (form_fields st) /\ fields st !! el = Some f /\
                field_disabled f = false /\ valid (validity f) = false) /\
  ((submit st).1 = false ->
   panels (submit st).2 = panels st /\ tabs (submit st).2 = tabs st /\
   focused (submit st).2 = focused st) /\
  (forall el f p pn,
     first_rejected st (enabled_fields st (form_fields st)) = Some el ->
     fields st !! el = Some f -> field_panel f = Some p -> panels st !! p = Some pn ->
     (submit st).1 = true /\
     panels (submit st).2 !! p
     = Some (mkPanel (panel_id pn) true (Some "false") (panel_fields pn))).
Proof.
  unfold submit. set (l := enabled_fields st (form_fields st)).
  destruct (submit_loop_fst st l st eq_refl) as [Hfst Hsk].
  split; [| split].
  - rewrite Hfst, Bool.negb_true_iff. split.
    + intros H. destruct (checked_stops st l H) as (_ & el & _ & Hok & _ & Hin).
      apply filter_In in Hin as [Hin Hen]. unfold is_enabled in Hen.
      destruct (fields st !! el) as [f |] eqn:Ef; [| discriminate].
      destruct (field_disabled f) eqn:Hd; [discriminate |].
      exists el, f. repeat split; try assumption.
      unfold field_ok in Hok. now rewrite Ef, Hd in Hok.
    + intros (el & f & Hin & Ef & Hd & Hv).
      apply Bool.not_true_iff_false. intros Hall.
      rewrite forallb_forall in Hall.
      assert (In el l) as Hl.
      { apply filter_In. split; [exact Hin |]. unfold is_enabled. now rewrite Ef, Hd. }
      specialize (Hall el Hl). unfold field_ok in Hall. rewrite Ef, Hd, Hv in Hall.
      discriminate.
  - rewrite Hfst, Bool.negb_false_iff. intros Hall.
    destruct (skeleton_frame _ _ (Hsk Hall)) as (H1 & H2 & H3 & _). auto.
  - intros el f p pn Hfirst Ef Hfp Hpn. split.
    + rewrite Hfst. apply Bool.negb_true_iff, Bool.not_true_iff_false. intros Hall.
      rewrite forallb_forall in Hall. unfold first_rejected in Hfirst.
      apply find_some in Hfirst as [Hin Hno]. rewrite (Hall el Hin) in Hno. discriminate.
    + rewrite (submit_loop_panels st l st eq_refl). fold l. rewrite Hfirst, Ef, Hfp, Hpn.
      cbn [fmap option_fmap option_map after_switch].
      rewrite list_lookup_fmap_Some_2 with (x := pn) by exact Hpn.
      unfold show_panel. rewrite bool_decide_eq_true_2 by reflexivity. reflexivity.
Qed.

(** X28. A click on a next button whose panel holds an invalid enabled control
    does not navigate: panels, tabs and focus stay as they are, and the
    page is the one validation leaves.  With every control valid the
    target of the button is shown. *)
Theorem next_click_gate b p pn st :
  next_panel b = Some p -> panels st !! p = Some pn ->
  ((validatePanel p st).1 = false ->
   next_click (Some b) st = (validatePanel p st).2 /\
   panels (next_click (Some b) st) = panels st /\
   tabs (next_click (Some b) st) = tabs st /\
   focused (next_click (Some b) st) = focused st) /\
  ((validatePanel p st).1 = true ->
   next_click (Some b) st = showPanelById (next_target b) (validatePanel p st).2).
Proof.
  intros Hb Hp. unfold next_click. rewrite Hb.
  assert (skeleton (validatePanel p st).2 = skeleton st) as Hsk.
  { unfold validatePanel. rewrite Hp.
    rewrite (every_validateInput st _ st eq_refl). apply skeleton_validate_all. }
  destruct (validatePanel p st) as [ok st1]. cbn [fst snd] in *.
  split; intros ->; [| reflexivity].
  destruct (skeleton_frame _ _ Hsk) as (H1 & H2 & H3 & _). auto.
Qed.

Lemma next_click_gate_witness :
  panels two_empty !! 0%nat = Some (mkPanel "step1" true (Some "false") [0%nat; 1%nat]) /\
  panels (next_click (Some (mkNext (Some "step2") (Some 0%nat))) two_empty)
  = panels two_empty.
Proof.
  split; [reflexivity |].
  exact (proj1 (proj2 (proj1 (next_click_gate (mkNext (Some "step2") (Some 0%nat))
                                0%nat _ two_empty eq_refl eq_refl) eq_refl))).
Defined.

(** ** The smoker rule *)

(** X29. With the smoker control on anything but "1", the change listener
    disables the dependent control, makes it optional, empties it and
    takes its invalid mark away, whatever it held; its error line goes
    back to the saved text when there is one, and stays as it is, with
    the message it shows, when there is none; validation then accepts the
    control.  With "1" the control is enabled and required and keeps its
    value, and no error line changes. *)
Theorem smoker_change_spec recheck st sm c fs fc :
  smokerStatusEl st = Some sm -> cigsPerDayEl st = Some c ->
  fields st !! sm = Some fs -> fields st !! c = Some fc ->
  let st' := smoker_change recheck st in
  (field_value fs <> "1" ->
   fields st' !! c
   = Some (mkField (field_kind fc) true false "" (field_min fc) (field_max fc) recheck
                   false (field_small fc) (field_panel fc)) /\
   (forall j sl, field_small fc = Some j -> smalls st !! j = Some sl ->
      smalls st' !! j
      = Some (if truthy (originalText sl)
              then mkSmall (default "" (originalText sl)) (originalText sl) false
              else sl)) /\
   (validateInput c st').1 = true) /\
  (field_value fs = "1" ->
   fields st' !! c
   = Some (mkField (field_kind fc) false true (field_value fc) (field_min fc) (field_max fc)
                   recheck (invalid fc) (field_small fc) (field_panel fc)) /\
   smalls st' = smalls st).
Proof.
  intros Hsm Hc Efs Efc st'. subst st'. unfold smoker_change.
  rewrite Hsm, Hc, Efs, Efc.
  pose proof (lookup_lt_Some _ _ _ Efc) as Hlt.
  split.
  - intros Hv. apply String.eqb_neq in Hv. rewrite Hv. cbn [negb].
    set (f' := mkField _ _ _ _ _ _ _ _ _ _).
    set (st1 := with_fields (<[c := f']> (fields st)) st).
    assert (fields st1 !! c = Some f') as E1
      by (subst st1; cbn [fields with_fields]; apply list_lookup_insert_eq, Hlt).
    assert (fields (clearError c st1) !! c = Some (set_invalid false f')) as E2
      by (rewrite (clearError_fields _ _ _ E1); apply list_lookup_insert_eq;
          exact (lookup_lt_Some _ _ _ E1)).
    split; [exact E2 |]. split.
    + intros j sl Ej Es. rewrite (clearError_smalls _ _ _ E1).
      subst f'. cbn [field_small]. rewrite Ej.
      subst st1. cbn [smalls with_fields]. rewrite Es.
      rewrite list_lookup_insert_eq by exact (lookup_lt_Some _ _ _ Es).
      reflexivity.
    + rewrite validateInput_fst. unfold field_ok. rewrite E2. reflexivity.
  - intros ->. cbn [String.eqb Ascii.eqb Bool.eqb negb]. split.
    + cbn [fields with_fields]. apply list_lookup_insert_eq, Hlt.
    + reflexivity.
Qed.

Lemma smoker_change_spec_witness :
  fields quit_smoking !! 1%nat
    = Some (mkField InputNumber false true "700" "0" "60"
              (mkValidity false false false true false) true (Some 0%nat) (Some 0%nat)) /\
  fields (smoker_change fine quit_smoking) !! 1%nat
    = Some (mkField InputNumber true false "" "0" "60" fine false (Some 0%nat) (Some 0%nat)).
Proof.
  split; [reflexivity |].
  refine (proj1 (proj1 (smoker_change_spec fine quit_smoking 0%nat 1%nat _ _
                          eq_refl eq_refl eq_refl eq_refl) _)).
  discriminate.
Defined.

End PageFacts.
